(** * Shor order finding for N = 15: a model of [factors.py]

    The development follows the source file top to bottom:
    - [c_amod15]: the hard-coded table of controlled multiplications mod 15;
    - [phase_estimation]: the circuit that is built and the value returned
      from the single sample;
    - [limit_denominator]: the bounded-denominator approximation of
      Python's [fractions.Fraction], used to read the period off the phase;
    - the retry loop of the [__main__] block.

    Circuits are instruction lists, exceptions are an explicit result type,
    the simulator's one-shot sample is an input of the model, and a float
    is the rational it denotes, the division of line 84 being rounded to
    binary64 as Python does. *)

From Stdlib Require Import ZArith QArith Qabs Qreduction Qpower Qcanon List String Bool Lia Znumtheory.
Import ListNotations.

Local Open Scope Z_scope.

(** ** Exceptions and the result type *)

Inductive exception : Type :=
| ValueError (msg : string)
| CircuitError (msg : string)
| ZeroDivisionError
| OverflowError
| OutOfFuel.

Inductive result (A : Type) : Type :=
| Ok (a : A)
| Raise (e : exception).

Arguments Ok {A} a.
Arguments Raise {A} e.

Definition bind {A B : Type} (m : result A) (k : A -> result B) : result B :=
  match m with
  | Ok a => k a
  | Raise e => Raise e
  end.

Notation "'let*' x ':=' m 'in' k" := (bind m (fun x => k))
  (at level 10, x name, m at level 100, k at level 200).

Definition is_ok {A : Type} (m : result A) : bool :=
  match m with Ok _ => true | Raise _ => false end.

(** Python's [x in xs] on a list of integers. *)
Definition py_in (x : Z) (xs : list Z) : bool := existsb (Z.eqb x) xs.

(** ** Circuits on a few qubits *)

Module Circuit.

(** The two gates [c_amod15] ever emits. *)
Inductive gate_op : Type :=
| Swap (q1 q2 : nat)
| X (q : nat).

(** [QuantumCircuit(n)]: a width and the instructions appended so far. *)
Record QuantumCircuit : Type := mkQC {
  num_qubits : nat;
  data : list gate_op
}.

Definition new_circuit (n : nat) : QuantumCircuit := mkQC n [].

Definition swap (qc : QuantumCircuit) (q1 q2 : nat) : QuantumCircuit :=
  mkQC (num_qubits qc) (data qc ++ [Swap q1 q2]).

Definition x (qc : QuantumCircuit) (q : nat) : QuantumCircuit :=
  mkQC (num_qubits qc) (data qc ++ [X q]).

(** [for q in range(n): U.x(q)] *)
Definition x_all (qc : QuantumCircuit) (n : nat) : QuantumCircuit :=
  fold_left x (seq 0 n) qc.

(** The name given to the gate: the f-string ["{a} mod {N}"], kept as its
    two fields. *)
Record gate_name : Type := mkName { name_a : Z; name_N : Z }.

(** [U.to_gate()] followed by [U.control()]: a gate acting on one control
    qubit (first) and the base gate's qubits. *)
Record ControlledGate : Type := mkCG {
  name : gate_name;
  base : QuantumCircuit;
  num_ctrl_qubits : nat
}.

Definition cg_num_qubits (g : ControlledGate) : nat :=
  (num_ctrl_qubits g + num_qubits (base g))%nat.

(** *** Action on classical basis states

    A basis state of the target register is the list of its bits, qubit 0
    first.  Swap and X gates permute basis states, so a circuit made of
    them is a function on bit lists. *)

Definition bit (s : list bool) (k : nat) : bool := nth k s false.

Definition apply_op (g : gate_op) (s : list bool) : list bool :=
  match g with
  | Swap q1 q2 =>
      map (fun k => if Nat.eqb k q1 then bit s q2
                    else if Nat.eqb k q2 then bit s q1
                    else bit s k)
          (seq 0 (List.length s))
  | X q =>
      map (fun k => if Nat.eqb k q then negb (bit s k) else bit s k)
          (seq 0 (List.length s))
  end.

Definition run (ops : list gate_op) (s : list bool) : list bool :=
  fold_left (fun st g => apply_op g st) ops s.

(** The controlled gate acts on the target only when the control bit is set. *)
Definition run_controlled (g : ControlledGate) (ctrl : bool) (s : list bool)
  : list bool :=
  if ctrl then run (data (base g)) s else s.

(** The basis state as the integer it encodes (qubit 0 least significant). *)
Fixpoint to_int (s : list bool) : Z :=
  match s with
  | [] => 0
  | b :: s' => Z.b2z b + 2 * to_int s'
  end.

(** A gate that acts inside a register of [n] qubits. *)
Definition op_in_range (n : nat) (g : gate_op) : bool :=
  match g with
  | Swap q1 q2 => Nat.ltb q1 n && Nat.ltb q2 n && negb (Nat.eqb q1 q2)
  | X q => Nat.ltb q n
  end.

Fixpoint iterate {A : Type} (n : nat) (f : A -> A) (a : A) : A :=
  match n with
  | O => a
  | S n' => iterate n' f (f a)
  end.

End Circuit.

Import Circuit.

(** ** [c_amod15] *)

Definition units15 : list Z := [2; 4; 7; 8; 11; 13].

Definition c_amod15 (a N : Z) : result ControlledGate :=
  if negb (py_in a units15) then
    Raise (ValueError "'a' must not have common factors with 15")
  else
    let U := new_circuit 4 in
    let U := if py_in a [2; 13]
             then swap (swap (swap U 2 3) 1 2) 0 1 else U in
    let U := if py_in a [7; 8]
             then swap (swap (swap U 0 1) 1 2) 2 3 else U in
    let U := if py_in a [4; 11]
             then swap (swap U 1 3) 0 2 else U in
    let U := if py_in a [7; 11; 13]
             then x_all U 4 else U in
    Ok (mkCG (mkName a N) U 1).

(** *** The table as the specification words it *)

Definition rotate_right (s : list bool) : list bool :=
  match s with
  | [b0; b1; b2; b3] => [b3; b0; b1; b2]
  | _ => s
  end.

Definition rotate_left (s : list bool) : list bool :=
  match s with
  | [b0; b1; b2; b3] => [b1; b2; b3; b0]
  | _ => s
  end.

Definition pair_swap (s : list bool) : list bool :=
  match s with
  | [b0; b1; b2; b3] => [b2; b3; b0; b1]
  | _ => s
  end.

Definition complement (s : list bool) : list bool := map negb s.

Definition table_swaps (a : Z) : list gate_op :=
  if py_in a [2; 13] then [Swap 2 3; Swap 1 2; Swap 0 1]
  else if py_in a [7; 8] then [Swap 0 1; Swap 1 2; Swap 2 3]
  else if py_in a [4; 11] then [Swap 1 3; Swap 0 2]
  else [].

Definition table_nots (a : Z) : list gate_op :=
  if py_in a [7; 11; 13] then [X 0; X 1; X 2; X 3]%nat else [].

Definition table_permutation (a : Z) (s : list bool) : list bool :=
  if py_in a [2; 13] then rotate_right s
  else if py_in a [7; 8] then rotate_left s
  else if py_in a [4; 11] then pair_swap s
  else s.

Definition table_transform (a : Z) (s : list bool) : list bool :=
  let s' := table_permutation a s in
  if py_in a [7; 11; 13] then complement s' else s'.

(** The multiplicative order of [a] modulo [N]: the least [k >= 1] with
    [a^k mod N = 1], searched below [N] (0 when there is none). *)
Fixpoint find_order (fuel : nat) (a N acc k : Z) : Z :=
  match fuel with
  | O => 0
  | S fuel' =>
      let acc' := (acc * a) mod N in
      if acc' =? 1 then k else find_order fuel' a N acc' (k + 1)
  end.

Definition ord (a N : Z) : Z := find_order (Z.to_nat N) a N 1 1.

(** ** True division of integers

    [x / y] on Python integers gives the binary64 float nearest to the
    quotient (ties to even), and raises when that float would be
    infinite.  The float is kept as the rational it denotes. *)

Module PyFloat.

(** The integer nearest to [a / b], ties to even, for [0 <= a], [0 < b]. *)
Definition round_half_even (a b : Z) : Z :=
  let q := a / b in
  match 2 * (a mod b) ?= b with
  | Lt => q
  | Gt => q + 1
  | Eq => if Z.even q then q else q + 1
  end.

(** [a / d < 2^e], for positive [a] and [d]. *)
Definition below_pow2 (a d e : Z) : bool :=
  if 0 <=? e then a <? d * 2 ^ e else a * 2 ^ (- e) <? d.

(** The float nearest to [n / d], for [0 < d]: with [2^e] the leading
    bit of the quotient, the quotient is rounded to a multiple of
    [2^(e - 52)] (53 significant bits), or of [2^(-1074)] in the
    subnormal range. *)
Definition float_of_ratio (n d : Z) : result Q :=
  if n =? 0 then Ok 0%Q
  else
    let a := Z.abs n in
    let e0 := Z.log2 a - Z.log2 d in
    let e := if below_pow2 a d e0 then e0 - 1 else e0 in
    let q := Z.max (e - 52) (-1074) in
    if 0 <=? q then
      let r := round_half_even a (d * 2 ^ q) in
      if 2 ^ 1024 <=? r * 2 ^ q then Raise OverflowError
      else Ok (inject_Z (Z.sgn n * r * 2 ^ q))
    else
      let r := round_half_even (a * 2 ^ (- q)) d in
      Ok (Qred (Z.sgn n * r # Z.to_pos (2 ^ (- q)))).

(** [x / y] *)
Definition true_divide (x y : Z) : result Q :=
  if y =? 0 then Raise ZeroDivisionError
  else float_of_ratio (Z.sgn y * x) (Z.abs y).

End PyFloat.

Import PyFloat.

(** ** [phase_estimation]: the circuit *)

Module Estimation.

(** Instructions of the estimation circuit, on the circuit's own qubit
    numbering (control register first, then the target register). *)
Inductive instruction : Type :=
| IGate (g : gate_op)
| IH (qubit : nat)
| IControlled (g : ControlledGate) (qargs : list nat)
| IQFT (inverse : bool) (qargs : list nat)
| IMeasure (qubit : nat) (clbit : nat).

Record EstimationCircuit : Type := mkEst {
  control_register : list nat;
  target_register : list nat;
  output_register : list nat;
  instrs : list instruction
}.

Definition append (qc : EstimationCircuit) (i : instruction) : EstimationCircuit :=
  mkEst (control_register qc) (target_register qc) (output_register qc)
        (instrs qc ++ [i]).

(** A gate of a composed circuit, moved onto the qubits it is composed on. *)
Definition remap (qubits : list nat) (g : gate_op) : gate_op :=
  match g with
  | Swap q1 q2 => Swap (nth q1 qubits 0%nat) (nth q2 qubits 0%nat)
  | X q => X (nth q qubits 0%nat)
  end.

Definition width_mismatch : exception :=
  CircuitError "number of qubits does not match".

(** [qc.compose(other, qubits=..., inplace=True)] with [other] a circuit:
    the library refuses a qubit list whose length is not [other]'s width and
    otherwise inlines [other]'s instructions. *)
Definition compose_circuit (qc : EstimationCircuit) (other : QuantumCircuit)
    (qubits : list nat) : result EstimationCircuit :=
  if Nat.eqb (List.length qubits) (num_qubits other) then
    Ok (fold_left (fun c g => append c (IGate (remap qubits g))) (data other) qc)
  else Raise width_mismatch.

(** The same call with [other] a gate: it is appended as one instruction,
    under the same width check. *)
Definition compose_gate (qc : EstimationCircuit) (other : ControlledGate)
    (qubits : list nat) : result EstimationCircuit :=
  if Nat.eqb (List.length qubits) (cg_num_qubits other) then
    Ok (append qc (IControlled other qubits))
  else Raise width_mismatch.

(** [for x in xs: body], threading the circuit and stopping at the first
    exception. *)
Fixpoint for_each {A S : Type} (xs : list A) (body : A -> S -> result S) (s : S)
  : result S :=
  match xs with
  | [] => Ok s
  | x :: xs' => let* s' := body x s in for_each xs' body s'
  end.

(** [for _ in range(n): body] *)
Fixpoint for_range {S : Type} (n : nat) (body : S -> result S) (s : S)
  : result S :=
  match n with
  | O => Ok s
  | S n' => let* s' := body s in for_range n' body s'
  end.

(** [enumerate(xs)] *)
Definition enumerate {A : Type} (xs : list A) : list (nat * A) :=
  combine (seq 0 (List.length xs)) xs.

(** Lines 69-73: one composition of the operation, controlled on [qubit]. *)
Definition apply_controlled (controlled_operation : ControlledGate)
    (qubit : nat) (qc : EstimationCircuit) : result EstimationCircuit :=
  compose_gate qc controlled_operation ([qubit] ++ target_register qc).

(** Lines 66-73: the body of the loop over the control register. *)
Definition loop_body (controlled_operation : ControlledGate)
    (iq : nat * nat) (qc : EstimationCircuit) : result EstimationCircuit :=
  let '(index, qubit) := iq in
  let qc := append qc (IH qubit) in
  for_range (2 ^ index)%nat (apply_controlled controlled_operation qubit) qc.

(** [qc.compose(QFT(n, inverse=True), qubits=...)]: the transform comes as
    one wrapped instruction; on no qubits it is the empty circuit and
    nothing is added. *)
Definition compose_qft (qc : EstimationCircuit) (qubits : list nat)
  : EstimationCircuit :=
  match qubits with
  | [] => qc
  | _ :: _ => append qc (IQFT true qubits)
  end.

(** [qc.measure(qubits, clbits)] on two registers: one measurement per
    qubit, into the classical bit of the same rank. *)
Definition measure (qc : EstimationCircuit) (qubits clbits : list nat)
  : EstimationCircuit :=
  fold_left (fun c qb => append c (IMeasure (fst qb) (snd qb)))
            (combine qubits clbits) qc.

Definition no_classical_bits : exception :=
  ValueError "The 0-th circuit does not have any classical bit. Sampler requires classical bits, plus measurements on the desired qubits.".

(** [Sampler().run(qc, shots=1)...popitem()[0]]: the sampler refuses a
    circuit without classical bits; otherwise the outcome is the integer
    it drew. *)
Definition sampler_run (qc : EstimationCircuit) (measurement : Z) : result Z :=
  match output_register qc with
  | [] => Raise no_classical_bits
  | _ :: _ => Ok measurement
  end.

Section Library.

(** Which sizes the library's register constructor accepts is the
    library's business; the model is parametric in it. *)
Variable register_size_ok : Z -> bool.

Definition bad_size : exception := CircuitError "invalid register size".

(** [QuantumRegister(size)] / [ClassicalRegister(size)]: the number of bits
    of the new register. *)
Definition new_register (size : Z) : result nat :=
  if register_size_ok size then Ok (Z.to_nat size) else Raise bad_size.

(** Lines 54-73 of the source: registers, state preparation, and the
    controlled-operation loop. *)
Definition build_loop (controlled_operation : ControlledGate)
    (psi_prep : QuantumCircuit) (precision : Z) : result EstimationCircuit :=
  let* nc := new_register precision in
  let* no := new_register precision in
  let* nt := new_register (Z.of_nat (num_qubits psi_prep)) in
  let qc := mkEst (seq 0 nc) (seq nc nt) (seq 0 no) [] in
  let* qc := compose_circuit qc psi_prep (target_register qc) in
  for_each (enumerate (control_register qc)) (loop_body controlled_operation) qc.

(** Lines 54-81: the loop, the inverse transform on the control register
    and the measurement into the output register. *)
Definition build_circuit (controlled_operation : ControlledGate)
    (psi_prep : QuantumCircuit) (precision : Z) : result EstimationCircuit :=
  let* qc := build_loop controlled_operation psi_prep precision in
  let qc := compose_qft qc (control_register qc) in
  let qc := measure qc (control_register qc) (output_register qc) in
  Ok qc.

(** The exact quotient of a sample by [2^precision]: what line 84 returns
    whenever the float division is exact. *)
Definition sample_to_phase (measurement precision : Z) : Q :=
  (inject_Z measurement / Qpower 2 precision)%Q.

(** [phase_estimation]: [measurement] is the one integer the sampler hands
    back for the single shot, when it accepts the circuit; line 84 divides
    it as a float.  The division is only reached with a classical bit to
    sample, hence with [precision >= 1], where [2**precision] is an
    integer. *)
Definition phase_estimation (controlled_operation : ControlledGate)
    (psi_prep : QuantumCircuit) (precision : Z) (measurement : Z) : result Q :=
  let* qc := build_circuit controlled_operation psi_prep precision in
  let* measurement := sampler_run qc measurement in
  true_divide measurement (2 ^ precision).

End Library.

(** The instructions the controlled-operation loop emits for the given
    (index, qubit) pairs, when no composition is refused. *)
Definition loop_instrs (op : ControlledGate) (target : list nat)
    (l : list (nat * nat)) : list instruction :=
  flat_map (fun '(index, qubit) =>
              IH qubit :: repeat (IControlled op (qubit :: target)) (2 ^ index)%nat)
           l.

(** The instructions that follow the loop, for [n] control bits: the
    inverse transform when there is a qubit to put it on, then one
    measurement per control qubit. *)
Definition tail_instrs (n : nat) : list instruction :=
  match n with
  | O => []
  | S _ => [IQFT true (seq 0 n)]
  end ++ map (fun i => IMeasure i i) (seq 0 n).

(** Applications of a controlled gate whose control is qubit [i]. *)
Definition controlled_on (i : nat) (ins : instruction) : bool :=
  match ins with
  | IControlled _ (c :: _) => Nat.eqb c i
  | _ => false
  end.

Definition is_controlled (ins : instruction) : bool :=
  match ins with
  | IControlled _ _ => true
  | _ => false
  end.

(** Hadamard gates on qubit [i]. *)
Definition is_h (i : nat) (ins : instruction) : bool :=
  match ins with
  | IH q => Nat.eqb q i
  | _ => false
  end.

Definition is_measure (ins : instruction) : bool :=
  match ins with
  | IMeasure _ _ => true
  | _ => false
  end.

(** The qubits an instruction acts on. *)
Definition instr_qubits (ins : instruction) : list nat :=
  match ins with
  | IGate (Swap q1 q2) => [q1; q2]
  | IGate (X q) => [q]
  | IH q => [q]
  | IControlled _ qargs => qargs
  | IQFT _ qargs => qargs
  | IMeasure q _ => [q]
  end.

(** The size check of the library's registers: negative sizes are refused,
    an empty register is allowed. *)
Definition qiskit_register_size_ok (size : Z) : bool := 0 <=? size.

End Estimation.

Import Estimation.

(** ** [Fraction] and [limit_denominator] *)

Module Fractions.

(** A [Fraction] is a rational kept in lowest terms with a positive
    denominator. *)
Definition numerator (f : Q) : Z := Qnum f.
Definition denominator (f : Q) : Z := Zpos (Qden f).

(** [Fraction(x)] for a float [x]: its exact value, normalised. *)
Definition Fraction (x : Q) : Q := Qred x.

(** [Fraction(n, d)] for integers. *)
Definition Fraction_of (n d : Z) : result Q :=
  if d =? 0 then Raise ZeroDivisionError
  else Ok (Qred (Qmake (Z.sgn d * n) (Z.to_pos (Z.abs d)))).

(** The state of the convergent loop. *)
Record convergents : Type := mkConv {
  p0 : Z; q0 : Z; p1 : Z; q1 : Z; n_ : Z; d_ : Z
}.

(** The [while True] loop of [limit_denominator]; [n // d] raises when
    [d] is zero. *)
Fixpoint convergent_loop (fuel : nat) (max_denominator : Z) (c : convergents)
  : result convergents :=
  match fuel with
  | O => Raise OutOfFuel
  | S fuel' =>
      if d_ c =? 0 then Raise ZeroDivisionError
      else
        let a := n_ c / d_ c in
        let q2 := q0 c + a * q1 c in
        if q2 >? max_denominator then Ok c
        else convergent_loop fuel' max_denominator
               (mkConv (p1 c) (q1 c) (p0 c + a * p1 c) q2
                       (d_ c) (n_ c - a * d_ c))
  end.

(** What holds of the loop state from the second iteration on, for a
    fraction of denominator [D] in lowest terms. *)
Definition loop_invariant (D max_denominator : Z) (c : convergents) : Prop :=
  0 <= q0 c /\ 1 <= q1 c <= max_denominator /\
  0 < d_ c < n_ c /\ Z.gcd (n_ c) (d_ c) = 1 /\
  q1 c * n_ c + q0 c * d_ c = D /\ max_denominator < D.

Definition floordiv (x y : Z) : result Z :=
  if y =? 0 then Raise ZeroDivisionError else Ok (x / y).

(** [Fraction.limit_denominator], after the standard library's
    [fractions.py]: the fraction itself when its denominator is within the
    bound, else the closer of the last convergent and the best
    semiconvergent. *)
Definition limit_denominator (self : Q) (max_denominator : Z) : result Q :=
  if max_denominator <? 1 then
    Raise (ValueError "max_denominator should be at least 1")
  else if denominator self <=? max_denominator then Ok self
  else
    let* c := convergent_loop (S (Z.to_nat (denominator self))) max_denominator
                (mkConv 0 1 1 0 (numerator self) (denominator self)) in
    let* k := floordiv (max_denominator - q0 c) (q1 c) in
    let* bound1 := Fraction_of (p0 c + k * p1 c) (q0 c + k * q1 c) in
    let* bound2 := Fraction_of (p1 c) (q1 c) in
    if Qle_bool (Qabs (bound2 - self)) (Qabs (bound1 - self))
    then Ok bound2 else Ok bound1.

(** Lines 138-139 of the source. *)
Definition extract_period (phase : Q) (N : Z) : result Z :=
  let* frac := limit_denominator (Fraction phase) N in
  Ok (denominator frac).

End Fractions.

Import Fractions.

(** ** The retry loop of [__main__] *)

Module Driver.

(** Lines written to standard output. *)
Inductive line : Type :=
| PrintAttempt (n : Z)
| PrintPeriod (r : Z)
| PrintGuesses (g0 g1 : Z)
| PrintFactor (guess : Z).

Record state : Type := mkState {
  FACTOR_FOUND : bool;
  ATTEMPT : Z;
  stdout : list line
}.

Definition print (st : state) (l : line) : state :=
  mkState (FACTOR_FOUND st) (ATTEMPT st) (stdout st ++ [l]).

Definition initial : state := mkState false 0 [].

(** [psi_prep = QuantumCircuit(4); psi_prep.x(0)] *)
Definition psi_prep : QuantumCircuit := x (new_circuit 4) 0.

(** Line 145. *)
Definition guesses (a N r : Z) : list Z :=
  [Z.gcd (a ^ (r / 2) - 1) N; Z.gcd (a ^ (r / 2) + 1) N].

(** [x % y] on integers. *)
Definition py_mod (x y : Z) : result Z :=
  if y =? 0 then Raise ZeroDivisionError else Ok (x mod y).

(** The test of line 148; [and] evaluates the remainder only when the
    guess is neither 1 nor [N]. *)
Definition accepted (N guess : Z) : result bool :=
  if negb (py_in guess [1; N]) then
    let* m := py_mod N guess in Ok (m =? 0)
  else Ok false.

(** Lines 147-151: one pass of the [for] loop. *)
Definition check_guess (N : Z) (guess : Z) (st : state) : result state :=
  let* yes := accepted N guess in
  if yes then
    let st := print st (PrintFactor guess) in
    Ok (mkState true (ATTEMPT st) (stdout st))
  else Ok st.

(** Lines 141-151, once [phase] and [r] are known. *)
Definition report (a N : Z) (phase : Q) (r : Z) (st : state) : result state :=
  let st := print st (PrintPeriod r) in
  if negb (Qeq_bool phase 0) then
    let gs := guesses a N r in
    let st := print st (PrintGuesses (nth 0 gs 0) (nth 1 gs 0)) in
    for_each gs (check_guess N) st
  else Ok st.

(** The acceptance condition as the specification words it: the guess is
    not 1, not [N], and leaves no remainder. *)
Definition nontrivial_divisor (N guess : Z) : bool :=
  negb (py_in guess [1; N]) && (N mod guess =? 0).

(** The body of the [while] loop, for the sample the simulator returns. *)
Definition attempt (a N : Z) (measurement : Z) (st : state) : result state :=
  let st := mkState (FACTOR_FOUND st) (ATTEMPT st + 1) (stdout st) in
  let st := print st (PrintAttempt (ATTEMPT st)) in
  let* op := c_amod15 a N in
  let* phase := phase_estimation qiskit_register_size_ok op psi_prep 8 measurement in
  let* r := extract_period phase N in
  report a N phase r st.

(** [while not FACTOR_FOUND]: the samples are the successive outcomes of the
    simulator; the loop gives back the state it stopped in and the samples
    it did not use. *)
Fixpoint search (a N : Z) (samples : list Z) (st : state)
  : result (state * list Z) :=
  if FACTOR_FOUND st then Ok (st, samples)
  else
    match samples with
    | [] => Ok (st, [])
    | m :: rest =>
        let* st' := attempt a N m st in
        search a N rest st'
    end.

Definition main (samples : list Z) : result (state * list Z) :=
  search 8 15 samples initial.

(** The factors one attempt prints, for the phase and period it found. *)
Definition attempt_factors (a N : Z) (phase : Q) (r : Z) : list Z :=
  if Qeq_bool phase 0 then []
  else filter (nontrivial_divisor N) (guesses a N r).

(** The factors printed on the given output. *)
Fixpoint reported (out : list line) : list Z :=
  match out with
  | [] => []
  | PrintFactor g :: out' => g :: reported out'
  | _ :: out' => reported out'
  end.

End Driver.

Import Driver.

Lemma py_in_spec (x : Z) (xs : list Z) : py_in x xs = true <-> In x xs.
Proof.
  unfold py_in. rewrite existsb_exists. split.
  - intros [y [Hy Heq]]. apply Z.eqb_eq in Heq. now subst.
  - intros H. exists x. split; [assumption | apply Z.eqb_refl].
Qed.

Lemma py_in_false (x : Z) (xs : list Z) : py_in x xs = false <-> ~ In x xs.
Proof.
  rewrite <- py_in_spec. destruct (py_in x xs); split; congruence.
Qed.

Ltac in_units H :=
  unfold units15 in H; simpl in H;
  repeat (destruct H as [H | H]; [subst | ]); try contradiction.

(** ** Facts about [c_amod15] *)

Lemma ord_table :
  map (fun a => ord a 15) units15 = [4; 2; 4; 4; 2; 4].
Proof. reflexivity. Qed.

Lemma ord_minimal (a k : Z) :
  In a units15 -> 1 <= k < ord a 15 -> a ^ k mod 15 <> 1.
Proof.
  intros Ha Hk. in_units Ha; cbv [ord] in Hk; simpl in Hk;
    assert (Hc : k = 1 \/ k = 2 \/ k = 3) by lia;
    destruct Hc as [-> | [-> | ->]]; try lia; now vm_compute.
Qed.

Lemma ord_power (a : Z) : In a units15 -> a ^ ord a 15 mod 15 = 1.
Proof. intros Ha. in_units Ha; reflexivity. Qed.

(** Every gate emitted acts inside the four-qubit register. *)
Lemma c_amod15_in_range (a N : Z) (g : ControlledGate) :
  c_amod15 a N = Ok g ->
  num_qubits (base g) = 4%nat /\ cg_num_qubits g = 5%nat /\
  forallb (op_in_range 4) (data (base g)) = true.
Proof.
  unfold c_amod15. destruct (py_in a units15) eqn:Hin; simpl; [ | discriminate].
  apply py_in_spec in Hin. in_units Hin; intros [= <-]; now vm_compute.
Qed.

(** C7: [c_amod15] raises its [ValueError] exactly when [a] is outside
    the table 2, 4, 7, 8, 11, 13, and returns an operator for every [a]
    inside it; the loop does not catch the exception: the first attempt
    ends the run with it. *)
Theorem c_amod15_raises_iff (a N : Z) :
  (c_amod15 a N = Raise (ValueError "'a' must not have common factors with 15")
     <-> ~ In a [2; 4; 7; 8; 11; 13]) /\
  (In a [2; 4; 7; 8; 11; 13] <-> exists g, c_amod15 a N = Ok g) /\
  (is_ok (c_amod15 a N) = py_in a [2; 4; 7; 8; 11; 13]) /\
  (forall e, c_amod15 a N = Raise e ->
     forall (m : Z) (rest : list Z) (st : state),
       attempt a N m st = Raise e /\
       (FACTOR_FOUND st = false -> search a N (m :: rest) st = Raise e)).
Proof.
  fold units15.
  assert (Hprop : forall e, c_amod15 a N = Raise e ->
            forall (m : Z) (rest : list Z) (st : state),
              attempt a N m st = Raise e /\
              (FACTOR_FOUND st = false -> search a N (m :: rest) st = Raise e)).
  { intros e He m rest st.
    assert (Hat : attempt a N m st = Raise e)
      by (unfold attempt; rewrite He; reflexivity).
    split; [exact Hat | ].
    intros Hnf. cbn [search]. rewrite Hnf, Hat. reflexivity. }
  revert Hprop. unfold c_amod15.
  destruct (py_in a units15) eqn:Hin; simpl; intros Hprop.
  - apply py_in_spec in Hin. repeat split; try exact Hprop.
    + discriminate.
    + intros H. contradiction.
    + intros _. eexists. reflexivity.
    + intros _. assumption.
    + apply Hprop; assumption.
    + apply Hprop; assumption.
  - apply py_in_false in Hin. repeat split; try exact Hprop.
    + intros _. assumption.
    + intros H. contradiction.
    + intros [g Hg]. discriminate.
    + apply Hprop; assumption.
    + apply Hprop; assumption.
Qed.

Lemma c_amod15_raises_iff_witness :
  c_amod15 3 15 = Raise (ValueError "'a' must not have common factors with 15") /\
  main [64] = Ok (mkState true 1
                    [PrintAttempt 1; PrintPeriod 4; PrintGuesses 3 5;
                     PrintFactor 3; PrintFactor 5], []) /\
  search 3 15 [64] initial
  = Raise (ValueError "'a' must not have common factors with 15").
Proof.
  destruct (c_amod15_raises_iff 3 15) as [[_ Hraise] [_ [_ Hprop]]].
  assert (H3 : ~ In 3 [2; 4; 7; 8; 11; 13]) by (simpl; lia).
  split; [exact (Hraise H3) | ]. split; [reflexivity | ].
  exact (proj2 (Hprop _ (Hraise H3) 64 [] initial) eq_refl).
Defined.

(** C5: for [a] in the table, the circuit built is the swap chain of its
    case followed by the four NOT gates when [a] is 7, 11 or 13; on basis
    states this is the rotation or pair swap of the case, complemented
    afterwards for 7, 11, 13. *)
Theorem c_amod15_table (a N : Z) (Ha : In a [2; 4; 7; 8; 11; 13]) :
  exists g,
    c_amod15 a N = Ok g /\
    num_qubits (base g) = 4%nat /\
    num_ctrl_qubits g = 1%nat /\
    data (base g) = table_swaps a ++ table_nots a /\
    (In a [2; 13] -> table_swaps a = [Swap 2 3; Swap 1 2; Swap 0 1]) /\
    (In a [7; 8] -> table_swaps a = [Swap 0 1; Swap 1 2; Swap 2 3]) /\
    (In a [4; 11] -> table_swaps a = [Swap 1 3; Swap 0 2]) /\
    (In a [7; 11; 13] -> table_nots a = [X 0; X 1; X 2; X 3]%nat) /\
    (~ In a [7; 11; 13] -> table_nots a = []) /\
    forall b0 b1 b2 b3 : bool,
      run (data (base g)) [b0; b1; b2; b3] = table_transform a [b0; b1; b2; b3].
Proof.
  fold units15 in Ha. in_units Ha;
    (eexists; split; [reflexivity | ]);
    (repeat split; try reflexivity;
     try (intros H; simpl in H; exfalso; lia);
     try (intros H; exfalso; apply H; simpl; tauto);
     try (intros [] [] [] []; reflexivity)).
Qed.

Lemma c_amod15_table_witness :
  exists g, c_amod15 7 15 = Ok g /\
            data (base g) = [Swap 0 1; Swap 1 2; Swap 2 3; X 0; X 1; X 2; X 3]%nat.
Proof.
  destruct (c_amod15_table 7 15) as [g [Hg [_ [_ [Hd _]]]]].
  - simpl. tauto.
  - exists g. split; [exact Hg | exact Hd].
Defined.

Ltac four_bits s H :=
  destruct s as [ | ?b [ | ?b [ | ?b [ | ?b [ | ? ? ] ] ] ] ];
  simpl in H; try discriminate; try lia.

Lemma c_amod15_multiplies (a N : Z) (g : ControlledGate) (s : list bool) :
  c_amod15 a N = Ok g -> List.length s = 4%nat -> 1 <= to_int s <= 14 ->
  to_int (run (data (base g)) s) = (a * to_int s) mod 15.
Proof.
  unfold c_amod15. destruct (py_in a units15) eqn:Hin; simpl; [ | discriminate].
  apply py_in_spec in Hin. intros Hg Hlen. four_bits s Hlen.
  in_units Hin; injection Hg as <-;
    destruct b, b0, b1, b2; vm_compute; intros [H1 H2];
    solve [ reflexivity | exfalso; apply H1; reflexivity
          | exfalso; apply H2; reflexivity ].
Qed.

Lemma run_controlled_off (g : ControlledGate) (s : list bool) :
  run_controlled g false s = s.
Proof. reflexivity. Qed.

(** C6: for [a] in the table, the transform built by [c_amod15 a 15],
    applied [ord a 15] times in a row, maps every state of the four target
    bits to itself. *)
Theorem c_amod15_order (a : Z) (Ha : In a [2; 4; 7; 8; 11; 13]) :
  exists g,
    c_amod15 a 15 = Ok g /\
    a ^ ord a 15 mod 15 = 1 /\
    forall s : list bool, List.length s = 4%nat ->
      iterate (Z.to_nat (ord a 15)) (run (data (base g))) s = s /\
      iterate (Z.to_nat (ord a 15)) (run_controlled g true) s = s.
Proof.
  fold units15 in Ha. pose proof (ord_power a Ha) as Hord.
  in_units Ha; (eexists; split; [reflexivity | split; [exact Hord | ]]);
    intros s Hlen; four_bits s Hlen;
    destruct b, b0, b1, b2; split; reflexivity.
Qed.

Lemma c_amod15_order_witness :
  exists g, c_amod15 13 15 = Ok g /\
    iterate 4 (run (data (base g))) [true; false; false; false]
      = [true; false; false; false].
Proof.
  destruct (c_amod15_order 13) as [g [Hg [_ Hid]]].
  - simpl. tauto.
  - exists g. split; [exact Hg | ].
    destruct (Hid [true; false; false; false] eq_refl) as [H _]. exact H.
Defined.

(** ** Facts about the estimation circuit *)

Section EstimationFacts.

Variable register_size_ok : Z -> bool.
Variable op : ControlledGate.

Lemma est_eta (qc : EstimationCircuit) :
  mkEst (control_register qc) (target_register qc) (output_register qc)
        (instrs qc) = qc.
Proof. now destruct qc. Qed.

Lemma compose_circuit_instrs (gs : list gate_op) (qubits : list nat)
    (qc : EstimationCircuit) :
  fold_left (fun c g => append c (IGate (remap qubits g))) gs qc
  = mkEst (control_register qc) (target_register qc) (output_register qc)
          (instrs qc ++ map (fun g => IGate (remap qubits g)) gs).
Proof.
  revert qc. induction gs as [ | g gs IH]; intros qc; simpl.
  - rewrite app_nil_r. symmetry. apply est_eta.
  - rewrite IH. simpl. now rewrite <- app_assoc.
Qed.

Lemma for_range_compose_ok (n : nat) (q : nat) (qc : EstimationCircuit) :
  Nat.eqb (S (List.length (target_register qc))) (cg_num_qubits op) = true ->
  for_range n (apply_controlled op q) qc
  = Ok (mkEst (control_register qc) (target_register qc) (output_register qc)
              (instrs qc ++ repeat (IControlled op (q :: target_register qc)) n)).
Proof.
  revert qc. induction n as [ | n IH]; intros qc Hw; simpl.
  - rewrite app_nil_r. now rewrite est_eta.
  - unfold apply_controlled at 1. unfold compose_gate.
    simpl List.length. rewrite Hw. simpl.
    rewrite IH by exact Hw. simpl. now rewrite <- app_assoc.
Qed.

Lemma for_range_compose_fail (n : nat) (q : nat) (qc : EstimationCircuit) :
  Nat.eqb (S (List.length (target_register qc))) (cg_num_qubits op) = false ->
  for_range (S n) (apply_controlled op q) qc = Raise width_mismatch.
Proof.
  intros Hw. simpl. unfold apply_controlled, compose_gate.
  simpl List.length. now rewrite Hw.
Qed.

Lemma pow2_succ (k : nat) : exists m, (2 ^ k)%nat = S m.
Proof.
  exists (Nat.pred (2 ^ k)).
  assert (2 ^ k <> 0)%nat by (apply Nat.pow_nonzero; discriminate). lia.
Qed.

Lemma for_each_loop_ok (l : list (nat * nat)) (qc : EstimationCircuit) :
  Nat.eqb (S (List.length (target_register qc))) (cg_num_qubits op) = true ->
  for_each l (loop_body op) qc
  = Ok (mkEst (control_register qc) (target_register qc) (output_register qc)
              (instrs qc ++ loop_instrs op (target_register qc) l)).
Proof.
  revert qc. induction l as [ | [index qubit] l IH]; intros qc Hw.
  - simpl. rewrite app_nil_r. now rewrite est_eta.
  - cbn [for_each loop_body]. rewrite for_range_compose_ok by exact Hw.
    cbn [bind]. rewrite IH by exact Hw. simpl. f_equal. f_equal.
    rewrite <- !app_assoc. reflexivity.
Qed.

Lemma for_each_loop_fail (l : list (nat * nat)) (qc : EstimationCircuit) :
  Nat.eqb (S (List.length (target_register qc))) (cg_num_qubits op) = false ->
  l <> [] ->
  for_each l (loop_body op) qc = Raise width_mismatch.
Proof.
  intros Hw Hl. destruct l as [ | [index qubit] l]; [congruence | ].
  cbn [for_each loop_body]. destruct (pow2_succ index) as [m ->].
  now rewrite for_range_compose_fail.
Qed.

Lemma enumerate_seq (n : nat) :
  enumerate (seq 0 n) = map (fun i => (i, i)) (seq 0 n).
Proof.
  unfold enumerate. rewrite length_seq. generalize 0%nat.
  induction n as [ | n IH]; intros s; simpl; [reflexivity | now rewrite IH].
Qed.

(** What lines 54-73 produce, in closed form. *)
Lemma build_loop_closed (psi : QuantumCircuit) (precision : Z) :
  build_loop register_size_ok op psi precision =
  if register_size_ok precision then
    if register_size_ok (Z.of_nat (num_qubits psi)) then
      if (precision <? 1) || Nat.eqb (S (num_qubits psi)) (cg_num_qubits op) then
        let nc := Z.to_nat precision in
        let target := seq nc (num_qubits psi) in
        Ok (mkEst (seq 0 nc) target (seq 0 nc)
              (map (fun g => IGate (remap target g)) (data psi)
               ++ loop_instrs op target (map (fun i => (i, i)) (seq 0 nc))))
      else Raise width_mismatch
    else Raise bad_size
  else Raise bad_size.
Proof.
  unfold build_loop, new_register.
  destruct (register_size_ok precision); [ | reflexivity]. cbn [bind].
  destruct (register_size_ok (Z.of_nat (num_qubits psi))); [ | reflexivity].
  cbn [bind]. unfold compose_circuit. cbn [target_register].
  rewrite length_seq, Nat2Z.id, Nat.eqb_refl. cbn [bind].
  rewrite compose_circuit_instrs. cbn [control_register target_register
    output_register instrs app].
  rewrite enumerate_seq.
  set (qc := mkEst _ _ _ _).
  assert (Hlen : List.length (target_register qc) = num_qubits psi)
    by (subst qc; cbn [target_register]; apply length_seq).
  destruct (Nat.eqb (S (num_qubits psi)) (cg_num_qubits op)) eqn:Hw.
  - rewrite orb_true_r. rewrite for_each_loop_ok by (rewrite Hlen; exact Hw).
    reflexivity.
  - rewrite orb_false_r. destruct (Z.ltb_spec precision 1) as [Hp | Hp].
    + subst qc. replace (Z.to_nat precision) with 0%nat by lia.
      simpl. now rewrite app_nil_r.
    + apply for_each_loop_fail.
      * rewrite Hlen. exact Hw.
      * destruct (Z.to_nat precision) eqn:E; [lia | simpl; discriminate].
Qed.

End EstimationFacts.

Lemma filter_repeat_controlled (op : ControlledGate) (t : list nat) (i j k : nat) :
  filter (controlled_on i) (repeat (IControlled op (j :: t)) k)
  = if Nat.eqb j i then repeat (IControlled op (j :: t)) k else [].
Proof.
  induction k as [ | k IH]; simpl.
  - now destruct (Nat.eqb j i).
  - rewrite IH. now destruct (Nat.eqb j i).
Qed.

Lemma loop_instrs_cons (op : ControlledGate) (t : list nat) (j : nat)
    (l : list (nat * nat)) :
  loop_instrs op t ((j, j) :: l)
  = (IH j :: repeat (IControlled op (j :: t)) (2 ^ j)%nat) ++ loop_instrs op t l.
Proof. reflexivity. Qed.

Lemma filter_loop_instrs_out (op : ControlledGate) (t : list nat) (i n s : nat) :
  (i < s \/ s + n <= i)%nat ->
  filter (controlled_on i) (loop_instrs op t (map (fun j => (j, j)) (seq s n)))
  = [].
Proof.
  revert s. induction n as [ | n IH]; intros s Hout; [reflexivity | ].
  cbn [seq map]. rewrite loop_instrs_cons, filter_app.
  cbn [filter controlled_on]. rewrite filter_repeat_controlled.
  destruct (Nat.eqb_spec s i) as [-> | Hne]; [lia | ].
  rewrite IH by lia. reflexivity.
Qed.

Lemma filter_loop_instrs_in (op : ControlledGate) (t : list nat) (i n s : nat) :
  (s <= i < s + n)%nat ->
  filter (controlled_on i) (loop_instrs op t (map (fun j => (j, j)) (seq s n)))
  = repeat (IControlled op (i :: t)) (2 ^ i)%nat.
Proof.
  revert s. induction n as [ | n IH]; intros s Hin; [lia | ].
  cbn [seq map]. rewrite loop_instrs_cons, filter_app.
  cbn [filter controlled_on]. rewrite filter_repeat_controlled.
  destruct (Nat.eqb_spec s i) as [-> | Hne].
  - rewrite filter_loop_instrs_out by lia. apply app_nil_r.
  - rewrite IH by lia. reflexivity.
Qed.

Lemma in_loop_instrs (op : ControlledGate) (t : list nat) (n : nat)
    (ins : instruction) :
  In ins (loop_instrs op t (map (fun j => (j, j)) (seq 0 n))) ->
  is_controlled ins = true ->
  exists i, (i < n)%nat /\ ins = IControlled op (i :: t).
Proof.
  unfold loop_instrs. rewrite in_flat_map. intros [[index qubit] [Hin Hins]] Hc.
  apply in_map_iff in Hin. destruct Hin as [j [[= <- <-] Hj]].
  apply in_seq in Hj. destruct Hins as [<- | Hins]; [discriminate | ].
  apply repeat_spec in Hins. exists j. split; [lia | exact Hins].
Qed.

Lemma combine_seq_self (s n : nat) :
  combine (seq s n) (seq s n) = map (fun i => (i, i)) (seq s n).
Proof.
  revert s. induction n as [ | n IH]; intros s; simpl;
    [reflexivity | now rewrite IH].
Qed.

Lemma measure_instrs (qc : EstimationCircuit) (n : nat) :
  measure qc (seq 0 n) (seq 0 n)
  = mkEst (control_register qc) (target_register qc) (output_register qc)
          (instrs qc ++ map (fun i => IMeasure i i) (seq 0 n)).
Proof.
  unfold measure. rewrite combine_seq_self. generalize (seq 0 n) as l.
  intros l. revert qc. induction l as [ | i l IH]; intros qc; simpl.
  - rewrite app_nil_r. symmetry. apply est_eta.
  - rewrite IH. simpl. now rewrite <- app_assoc.
Qed.

Lemma compose_qft_instrs (qc : EstimationCircuit) (n : nat) :
  compose_qft qc (seq 0 n)
  = mkEst (control_register qc) (target_register qc) (output_register qc)
          (instrs qc ++ match n with
                        | O => []
                        | S _ => [IQFT true (seq 0 n)]
                        end).
Proof.
  destruct n as [ | n]; simpl.
  - rewrite app_nil_r. symmetry. apply est_eta.
  - reflexivity.
Qed.

(** The instruction list of a circuit that was built. *)
Lemma build_circuit_instrs (ok : Z -> bool) (op : ControlledGate)
    (psi : QuantumCircuit) (precision : Z) (qc : EstimationCircuit) :
  build_circuit ok op psi precision = Ok qc ->
  let nc := Z.to_nat precision in
  control_register qc = seq 0 nc /\
  target_register qc = seq nc (num_qubits psi) /\
  output_register qc = seq 0 nc /\
  instrs qc =
    map (fun g => IGate (remap (target_register qc) g)) (data psi)
    ++ loop_instrs op (target_register qc) (map (fun i => (i, i)) (seq 0 nc))
    ++ tail_instrs nc.
Proof.
  unfold build_circuit. rewrite build_loop_closed.
  destruct (ok precision); [ | discriminate].
  destruct (ok (Z.of_nat (num_qubits psi))); [ | discriminate].
  destruct (_ || _); [ | discriminate].
  cbn [bind control_register output_register].
  rewrite compose_qft_instrs.
  cbn [control_register target_register output_register instrs].
  rewrite measure_instrs.
  cbn [control_register target_register output_register instrs].
  intros [= <-].
  cbn [control_register target_register output_register instrs].
  repeat split. unfold tail_instrs. now rewrite <- !app_assoc.
Qed.

Lemma tail_not_controlled (n : nat) (ins : instruction) :
  In ins (tail_instrs n) -> is_controlled ins = false.
Proof.
  unfold tail_instrs. intros Hin. apply in_app_or in Hin.
  destruct Hin as [Hin | Hin].
  - destruct n; [destruct Hin | ]. destruct Hin as [<- | []]. reflexivity.
  - apply in_map_iff in Hin. destruct Hin as [i [<- _]]. reflexivity.
Qed.

Lemma filter_none {A : Type} (f : A -> bool) (l : list A) :
  (forall x, In x l -> f x = false) -> filter f l = [].
Proof.
  induction l as [ | x l IH]; intros H; [reflexivity | ].
  simpl. rewrite (H x (or_introl eq_refl)). apply IH.
  intros y Hy. apply H. now right.
Qed.

Lemma controlled_on_is_controlled (i : nat) (ins : instruction) :
  is_controlled ins = false -> controlled_on i ins = false.
Proof. destruct ins; simpl; congruence. Qed.

(** C3: in the circuit [phase_estimation] builds, the applications of the
    controlled operator whose control is bit [i] are exactly [2^i] copies
    of the operator on bit [i] and the target register, for every control
    bit [i] below [precision]; the circuit applies no other controlled
    operator. *)
Theorem phase_estimation_repetitions (ok : Z -> bool) (op : ControlledGate)
    (psi : QuantumCircuit) (precision : Z) (qc : EstimationCircuit)
    (Hbuilt : build_circuit ok op psi precision = Ok qc) :
  (forall i : nat, (i < Z.to_nat precision)%nat ->
     nth i (control_register qc) 0%nat = i /\
     filter (controlled_on i) (instrs qc)
       = repeat (IControlled op ([i] ++ target_register qc)) (2 ^ i)%nat /\
     List.length (filter (controlled_on i) (instrs qc)) = (2 ^ i)%nat) /\
  (forall ins : instruction, In ins (instrs qc) -> is_controlled ins = true ->
     exists i : nat, (i < Z.to_nat precision)%nat /\
                     ins = IControlled op ([i] ++ target_register qc)).
Proof.
  destruct (build_circuit_instrs _ _ _ _ _ Hbuilt) as [Hc [Ht [Ho Hi]]].
  split.
  - intros i Hlt.
    assert (Hf : filter (controlled_on i) (instrs qc)
                 = repeat (IControlled op ([i] ++ target_register qc)) (2 ^ i)%nat).
    { rewrite Hi, !filter_app, filter_loop_instrs_in by lia.
      assert (Hpre : forall l : list gate_op,
                 filter (controlled_on i)
                   (map (fun g => IGate (remap (target_register qc) g)) l) = []).
      { induction l as [ | g l IH]; simpl; [reflexivity | exact IH]. }
      rewrite Hpre.
      rewrite (filter_none (controlled_on i) (tail_instrs (Z.to_nat precision)))
        by (intros x Hx; apply controlled_on_is_controlled;
            apply (tail_not_controlled _ _ Hx)).
      cbn [app]. apply app_nil_r. }
    split; [ | split].
    + rewrite Hc. rewrite seq_nth by exact Hlt. reflexivity.
    + exact Hf.
    + rewrite Hf. apply repeat_length.
  - intros ins Hin Hctl. rewrite Hi in Hin.
    apply in_app_or in Hin. destruct Hin as [Hin | Hin].
    + apply in_map_iff in Hin. destruct Hin as [g [<- _]]. discriminate.
    + apply in_app_or in Hin. destruct Hin as [Hin | Hin].
      * apply in_loop_instrs; assumption.
      * rewrite (tail_not_controlled _ _ Hin) in Hctl. discriminate.
Qed.

Lemma phase_estimation_repetitions_witness :
  exists qc,
    build_circuit qiskit_register_size_ok
      (mkCG (mkName 8 15) (swap (swap (swap (new_circuit 4) 0 1) 1 2) 2 3) 1)
      psi_prep 3 = Ok qc /\
    List.length (filter (controlled_on 2) (instrs qc)) = 4%nat.
Proof.
  destruct (build_circuit qiskit_register_size_ok
              (mkCG (mkName 8 15)
                 (swap (swap (swap (new_circuit 4) 0 1) 1 2) 2 3) 1)
              psi_prep 3) as [qc | e] eqn:Hb; [ | vm_compute in Hb; discriminate Hb].
  exists qc. split; [reflexivity | ].
  destruct (phase_estimation_repetitions _ _ _ _ _ Hb) as [H _].
  destruct (H 2%nat) as [_ [_ Hn]].
  - vm_compute. lia.
  - exact Hn.
Defined.

(** ** Facts about the float division *)

Lemma round_half_even_bounds (a b k : Z) :
  0 <= a -> 0 < b -> a <= b * k -> 0 <= round_half_even a b <= k.
Proof.
  intros Ha Hb Hk. unfold round_half_even.
  pose proof (Z.div_mod a b ltac:(lia)) as Hdm.
  pose proof (Z.mod_pos_bound a b Hb) as Hr.
  pose proof (Z.div_pos a b Ha Hb) as Hq.
  destruct (Z.compare_spec (2 * (a mod b)) b) as [E | E | E].
  - destruct (Z.even (a / b)); nia.
  - nia.
  - nia.
Qed.

Lemma round_half_even_exact (c b : Z) :
  0 < b -> round_half_even (c * b) b = c.
Proof.
  intros Hb. unfold round_half_even.
  rewrite Z.div_mul, Z.mod_mul by lia.
  destruct (Z.compare_spec (2 * 0) b); [lia | reflexivity | lia].
Qed.

Lemma true_divide_pow2 (m p : Z) :
  0 <= p -> true_divide m (2 ^ p) = float_of_ratio m (2 ^ p).
Proof.
  intros Hp. unfold true_divide.
  assert (Hpos : 0 < 2 ^ p) by (apply Z.pow_pos_nonneg; lia).
  destruct (Z.eqb_spec (2 ^ p) 0); [lia | ].
  rewrite Z.sgn_pos, Z.abs_eq by lia. now rewrite Z.mul_1_l.
Qed.

(** A sample of [p] bits never overflows the division by [2^p]: the
    float lies between 0 and 1, both included. *)
Lemma true_divide_unit (m p : Z) :
  0 <= p -> 0 <= m < 2 ^ p ->
  exists phase, true_divide m (2 ^ p) = Ok phase /\
                (0 <= phase)%Q /\ (phase <= 1)%Q.
Proof.
  intros Hp Hm. rewrite (true_divide_pow2 m p Hp). unfold float_of_ratio.
  destruct (Z.eqb_spec m 0) as [-> | Hm0].
  - exists 0%Q. repeat split; unfold Qle; simpl; lia.
  - assert (Hmpos : 0 < m) by lia.
    rewrite Z.abs_eq, Z.sgn_pos by lia.
    rewrite Z.log2_pow2 by exact Hp.
    assert (Hlog : Z.log2 m < p) by (apply Z.log2_lt_pow2; lia).
    set (e0 := Z.log2 m - p).
    set (e := if below_pow2 m (2 ^ p) e0 then e0 - 1 else e0).
    assert (He : e <= e0) by (subst e; destruct (below_pow2 _ _ _); lia).
    set (q := Z.max (e - 52) (-1074)).
    assert (Hq : q < 0) by (subst q e0; lia).
    destruct (Z.leb_spec 0 q) as [Hge | _]; [lia | ].
    assert (Hpow : 0 < 2 ^ (- q)) by (apply Z.pow_pos_nonneg; lia).
    assert (Hpp : 0 < 2 ^ p) by (apply Z.pow_pos_nonneg; lia).
    pose proof (round_half_even_bounds (m * 2 ^ (- q)) (2 ^ p) (2 ^ (- q))
                  ltac:(nia) Hpp ltac:(nia)) as Hr.
    eexists. split; [reflexivity | ].
    rewrite Qred_correct, Z.mul_1_l. unfold Qle. cbn [Qnum Qden].
    rewrite Z2Pos.id by exact Hpow. lia.
Qed.

(** With at most 53 significant bits in the sample the division is
    exact. *)
Lemma true_divide_exact (m p : Z) :
  1 <= p <= 1022 -> 0 <= m < 2 ^ p -> m < 2 ^ 53 ->
  exists phase, true_divide m (2 ^ p) = Ok phase /\
                (phase == inject_Z m / inject_Z (2 ^ p))%Q.
Proof.
  intros Hp Hm H53. rewrite (true_divide_pow2 m p ltac:(lia)).
  assert (Hpp : 0 < 2 ^ p) by (apply Z.pow_pos_nonneg; lia).
  unfold float_of_ratio.
  destruct (Z.eqb_spec m 0) as [-> | Hm0].
  - exists 0%Q. split; [reflexivity | ].
    unfold Qdiv. now rewrite Qmult_0_l.
  - assert (Hmpos : 0 < m) by lia.
    rewrite Z.abs_eq, Z.sgn_pos by lia.
    rewrite Z.log2_pow2 by lia.
    pose proof (Z.log2_spec m Hmpos) as [Hlo Hhi].
    pose proof (Z.log2_nonneg m) as Hl0.
    assert (Hlog : Z.log2 m < p) by (apply Z.log2_lt_pow2; lia).
    assert (Hl53 : Z.log2 m < 53) by (apply Z.log2_lt_pow2; lia).
    set (e0 := Z.log2 m - p).
    assert (Hb : below_pow2 m (2 ^ p) e0 = false).
    { unfold below_pow2. destruct (Z.leb_spec 0 e0); [subst e0; lia | ].
      apply Z.ltb_ge. subst e0.
      replace (2 ^ p) with (2 ^ Z.log2 m * 2 ^ (- (Z.log2 m - p)))
        by (rewrite <- Z.pow_add_r by lia; f_equal; lia).
      apply Z.mul_le_mono_nonneg_r; [apply Z.pow_nonneg; lia | exact Hlo]. }
    rewrite Hb.
    assert (Hq : Z.max (e0 - 52) (-1074) = e0 - 52) by (subst e0; lia).
    rewrite Hq.
    destruct (Z.leb_spec 0 (e0 - 52)) as [Hge | _]; [subst e0; lia | ].
    set (t := 52 - Z.log2 m).
    assert (Hsplit : 2 ^ (- (e0 - 52)) = 2 ^ t * 2 ^ p).
    { rewrite <- Z.pow_add_r by (subst t; lia). f_equal. subst e0 t. lia. }
    rewrite Hsplit, Z.mul_assoc, round_half_even_exact by exact Hpp.
    eexists. split; [reflexivity | ].
    rewrite Qred_correct, Z.mul_1_l.
    assert (Ht : 0 < 2 ^ t) by (apply Z.pow_pos_nonneg; subst t; lia).
    unfold Qeq, Qdiv, Qmult, Qinv, inject_Z.
    destruct (2 ^ p) as [ | P | P] eqn:EP; try lia.
    cbn [Qnum Qden]. rewrite Z2Pos.id by nia.
    rewrite Pos2Z.inj_mul. cbn [Z.mul]. nia.
Qed.

(** The sampled integer over [2^precision], as a rational. *)
Lemma sample_to_phase_value (measurement precision : Z) :
  0 <= precision ->
  (sample_to_phase measurement precision
   == inject_Z measurement / inject_Z (2 ^ precision))%Q.
Proof.
  intros Hp. unfold sample_to_phase.
  rewrite (Zpower_Qpower 2 precision Hp). reflexivity.
Qed.



(** Lines 83-84, once the circuit is built: the sampler refuses a circuit
    without classical bits, otherwise the sample is divided. *)
Lemma phase_estimation_closed (ok : Z -> bool) (op : ControlledGate)
    (psi : QuantumCircuit) (precision measurement : Z) :
  is_ok (build_circuit ok op psi precision) = true ->
  phase_estimation ok op psi precision measurement
  = if precision <? 1 then Raise no_classical_bits
    else true_divide measurement (2 ^ precision).
Proof.
  intros Hok. unfold phase_estimation.
  destruct (build_circuit ok op psi precision) as [qc | e] eqn:Hb;
    [ | discriminate].
  destruct (build_circuit_instrs _ _ _ _ _ Hb) as [_ [_ [Ho _]]].
  cbn [bind]. unfold sampler_run. rewrite Ho.
  destruct (Z.ltb_spec precision 1) as [Hp | Hp].
  - replace (Z.to_nat precision) with 0%nat by lia. reflexivity.
  - destruct (Z.to_nat precision) as [ | n] eqn:E; [lia | reflexivity].
Qed.

(** When construction succeeds, for any size check of the registers. *)
Lemma build_loop_ok_iff (ok : Z -> bool) (op : ControlledGate)
    (psi : QuantumCircuit) (precision : Z) :
  is_ok (build_loop ok op psi precision)
  = ok precision && ok (Z.of_nat (num_qubits psi))
    && ((precision <? 1) || Nat.eqb (S (num_qubits psi)) (cg_num_qubits op)).
Proof.
  rewrite build_loop_closed.
  destruct (ok precision); [ | reflexivity].
  destruct (ok (Z.of_nat (num_qubits psi))); [ | reflexivity].
  destruct (_ || _); reflexivity.
Qed.

Lemma build_circuit_ok_loop (ok : Z -> bool) (op : ControlledGate)
    (psi : QuantumCircuit) (precision : Z) :
  is_ok (build_circuit ok op psi precision)
  = is_ok (build_loop ok op psi precision).
Proof.
  unfold build_circuit. now destruct (build_loop ok op psi precision).
Qed.

Lemma build_loop_raises (ok : Z -> bool) (op : ControlledGate)
    (psi : QuantumCircuit) (precision : Z) (e : exception) :
  build_loop ok op psi precision = Raise e ->
  e = bad_size \/ e = width_mismatch.
Proof.
  rewrite build_loop_closed.
  destruct (ok precision); [ | intros [= <-]; now left].
  destruct (ok (Z.of_nat (num_qubits psi))); [ | intros [= <-]; now left].
  destruct (_ || _); [discriminate | intros [= <-]; now right].
Qed.

(** A failure of the construction is the failure of the call. *)
Lemma phase_estimation_raises (ok : Z -> bool) (op : ControlledGate)
    (psi : QuantumCircuit) (precision measurement : Z) (e : exception) :
  build_loop ok op psi precision = Raise e ->
  phase_estimation ok op psi precision measurement = Raise e.
Proof.
  intros He. unfold phase_estimation, build_circuit. now rewrite He.
Qed.




(** C9: a call with [precision < 1], or with an operator that does not
    span one control bit plus the state preparation's qubits, fails, and
    fails whatever the sample would have been: a negative [precision] is
    refused by the register constructor, [precision = 0] builds a circuit
    without classical bits that the sampler refuses, and from
    [precision = 1] on a wrong width is refused by the first composition
    of the operator.  Otherwise the circuit is built, and the call
    returns for every sample of [precision] bits. *)
Theorem phase_estimation_fails_iff (op : ControlledGate) (psi : QuantumCircuit)
    (precision measurement : Z) :
  (precision < 1 \/ S (num_qubits psi) <> cg_num_qubits op ->
   is_ok (phase_estimation qiskit_register_size_ok op psi precision measurement)
   = false) /\
  (precision < 0 ->
   phase_estimation qiskit_register_size_ok op psi precision measurement
   = Raise bad_size) /\
  (precision = 0 ->
   phase_estimation qiskit_register_size_ok op psi precision measurement
   = Raise no_classical_bits) /\
  (1 <= precision -> S (num_qubits psi) <> cg_num_qubits op ->
   phase_estimation qiskit_register_size_ok op psi precision measurement
   = Raise width_mismatch) /\
  (1 <= precision -> S (num_qubits psi) = cg_num_qubits op ->
   is_ok (build_circuit qiskit_register_size_ok op psi precision) = true /\
   (0 <= measurement < 2 ^ precision ->
    is_ok (phase_estimation qiskit_register_size_ok op psi precision
             measurement) = true)).
Proof.
  assert (Hneg : precision < 0 ->
            phase_estimation qiskit_register_size_ok op psi precision measurement
            = Raise bad_size).
  { intros Hp. apply phase_estimation_raises. rewrite build_loop_closed.
    unfold qiskit_register_size_ok.
    destruct (Z.leb_spec 0 precision); [lia | reflexivity]. }
  assert (Hzero : precision = 0 ->
            phase_estimation qiskit_register_size_ok op psi precision measurement
            = Raise no_classical_bits).
  { intros ->. rewrite phase_estimation_closed; [reflexivity | ].
    rewrite build_circuit_ok_loop, build_loop_ok_iff.
    unfold qiskit_register_size_ok.
    destruct (Z.leb_spec 0 (Z.of_nat (num_qubits psi))); [reflexivity | lia]. }
  assert (Hwidth : 1 <= precision -> S (num_qubits psi) <> cg_num_qubits op ->
            phase_estimation qiskit_register_size_ok op psi precision measurement
            = Raise width_mismatch).
  { intros Hp Hw. apply phase_estimation_raises. rewrite build_loop_closed.
    unfold qiskit_register_size_ok.
    destruct (Z.leb_spec 0 precision); [ | lia].
    destruct (Z.leb_spec 0 (Z.of_nat (num_qubits psi))); [ | lia].
    destruct (Z.ltb_spec precision 1); [lia | ].
    destruct (Nat.eqb_spec (S (num_qubits psi)) (cg_num_qubits op));
      [contradiction | reflexivity]. }
  split; [ | split; [exact Hneg | split; [exact Hzero | split; [exact Hwidth | ]]]].
  - intros Hbad.
    destruct (Z.lt_trichotomy precision 0) as [Hp | [Hp | Hp]].
    + now rewrite (Hneg Hp).
    + now rewrite (Hzero Hp).
    + destruct Hbad as [Hbad | Hbad]; [lia | ].
      now rewrite (Hwidth ltac:(lia) Hbad).
  - intros Hp Hw.
    assert (Hok : is_ok (build_circuit qiskit_register_size_ok op psi precision)
                  = true).
    { rewrite build_circuit_ok_loop, build_loop_ok_iff, Hw, Nat.eqb_refl.
      unfold qiskit_register_size_ok.
      destruct (Z.leb_spec 0 precision); [ | lia].
      destruct (Z.leb_spec 0 (Z.of_nat (num_qubits psi))); [ | lia].
      now rewrite orb_true_r. }
    split; [exact Hok | ].
    intros Hm. rewrite (phase_estimation_closed _ _ _ _ _ Hok).
    destruct (Z.ltb_spec precision 1); [lia | ].
    destruct (true_divide_unit measurement precision ltac:(lia) Hm)
      as [phase [Hdiv _]].
    now rewrite Hdiv.
Qed.

Lemma phase_estimation_fails_iff_witness :
  is_ok (phase_estimation qiskit_register_size_ok
           (mkCG (mkName 8 15) (swap (swap (swap (new_circuit 4) 0 1) 1 2) 2 3) 1)
           psi_prep 0 0) = false /\
  is_ok (phase_estimation qiskit_register_size_ok
           (mkCG (mkName 8 15) (swap (swap (new_circuit 3) 0 1) 1 2) 1)
           psi_prep 2 3) = false /\
  is_ok (phase_estimation qiskit_register_size_ok
           (mkCG (mkName 8 15) (swap (swap (swap (new_circuit 4) 0 1) 1 2) 2 3) 1)
           psi_prep 2 3) = true.
Proof.
  split; [ | split].
  - apply (proj1 (phase_estimation_fails_iff _ psi_prep 0 0)). left. lia.
  - apply (proj1 (phase_estimation_fails_iff _ psi_prep 2 3)). right.
    vm_compute. lia.
  - apply (proj2 (proj2 (proj2 (proj2
             (phase_estimation_fails_iff _ psi_prep 2 3))))).
    + lia.
    + reflexivity.
    + lia.
Defined.

(** ** Facts about [limit_denominator] *)

Lemma limit_denominator_small (f : Q) (N : Z) :
  denominator f <= N -> limit_denominator f N = Ok f.
Proof.
  intros Hle. unfold limit_denominator.
  assert (Hpos : 0 < denominator f) by (unfold denominator; lia).
  destruct (Z.ltb_spec N 1); [lia | ].
  destruct (Z.leb_spec (denominator f) N); [reflexivity | lia].
Qed.

Lemma Fraction_lowest_terms (phase : Q) (p q : Z) :
  0 < q -> Z.gcd p q = 1 -> (phase == p # Z.to_pos q)%Q ->
  Fraction phase = (p # Z.to_pos q)%Q.
Proof.
  intros Hq Hgcd Heq. unfold Fraction.
  rewrite (Qred_complete _ _ Heq). apply Qred_identity.
  simpl. rewrite Z2Pos.id by exact Hq. exact Hgcd.
Qed.

Lemma extract_period_lowest_terms (phase : Q) (N p q : Z) :
  0 < q -> Z.gcd p q = 1 -> q <= N -> (phase == p # Z.to_pos q)%Q ->
  extract_period phase N = Ok q.
Proof.
  intros Hq Hgcd Hle Heq. unfold extract_period.
  rewrite (Fraction_lowest_terms phase p q Hq Hgcd Heq).
  rewrite limit_denominator_small.
  - cbn [bind]. unfold denominator. simpl. now rewrite Z2Pos.id.
  - unfold denominator. simpl. now rewrite Z2Pos.id.
Qed.

Lemma extract_period_zero (phase : Q) (N : Z) :
  (phase == 0)%Q -> 1 <= N -> extract_period phase N = Ok 1.
Proof.
  intros H0 HN.
  apply (extract_period_lowest_terms phase N 0 1); try lia; try reflexivity.
  exact H0.
Qed.

(** C1: a phase equal to [p/q] in lowest terms with [q <= N] has period
    [q]; a phase equal to 0 has period 1. *)
Theorem extract_period_roundtrip (phase : Q) (N : Z) :
  (forall p q : Z,
      0 < q -> Z.gcd p q = 1 -> q <= N -> (phase == p # Z.to_pos q)%Q ->
      extract_period phase N = Ok q) /\
  ((phase == 0)%Q -> 1 <= N -> extract_period phase N = Ok 1).
Proof.
  split.
  - intros p q. apply extract_period_lowest_terms.
  - apply extract_period_zero.
Qed.

Lemma extract_period_roundtrip_witness :
  extract_period (sample_to_phase 192 8) 15 = Ok 4 /\
  extract_period (sample_to_phase 0 8) 15 = Ok 1.
Proof.
  destruct (extract_period_roundtrip (sample_to_phase 192 8) 15) as [H _].
  destruct (extract_period_roundtrip (sample_to_phase 0 8) 15) as [_ H0].
  split.
  - apply (H 3 4); try lia; reflexivity.
  - apply H0; [reflexivity | lia].
Defined.

(** *** The convergent loop always stops on a convergent *)

Section ConvergentLoop.

Variables D max_denominator : Z.

Lemma remainder_positive (n d : Z) :
  0 < d -> Z.gcd n d = 1 -> 1 < d -> 0 < n - n / d * d < d.
Proof.
  intros Hd Hg H1.
  pose proof (Z.mod_pos_bound n d Hd) as Hb.
  rewrite Z.mod_eq in Hb by lia. rewrite (Z.mul_comm d) in Hb.
  assert (n - n / d * d <> 0); [ | lia].
  intros H0.
  assert (Hdiv : (d | n)) by (exists (n / d); lia).
  apply Z.divide_gcd_iff in Hdiv; [ | lia].
  rewrite Z.gcd_comm in Hdiv. lia.
Qed.

Lemma gcd_step (n d a : Z) : Z.gcd d (n - a * d) = Z.gcd n d.
Proof.
  replace (n - a * d) with (n + (- a) * d) by ring.
  rewrite Z.gcd_add_mult_diag_r. apply Z.gcd_comm.
Qed.

Lemma convergent_loop_stops (fuel : nat) (c : convergents) :
  loop_invariant D max_denominator c -> (Z.to_nat (d_ c) < fuel)%nat ->
  exists c', convergent_loop fuel max_denominator c = Ok c' /\
             0 <= q0 c' /\ 1 <= q1 c' <= max_denominator.
Proof.
  revert c. induction fuel as [ | fuel IH]; intros c Hinv Hfuel; [lia | ].
  destruct Hinv as [Hq0 [Hq1 [Hd [Hg [Hsum Hmax]]]]].
  cbn [convergent_loop].
  destruct (Z.eqb_spec (d_ c) 0) as [H0 | _]; [lia | ].
  set (a := n_ c / d_ c).
  assert (Ha : 1 <= a).
  { subst a. apply Z.div_le_lower_bound; lia. }
  destruct (Z.gtb_spec (q0 c + a * q1 c) max_denominator) as [Hbig | Hsmall].
  - exists c. repeat split; lia.
  - assert (Hd1 : 1 < d_ c).
    { destruct (Z.eq_dec (d_ c) 1) as [E | E]; [ | lia].
      exfalso. subst a. rewrite E in *. rewrite Z.div_1_r in *. nia. }
    pose proof (remainder_positive (n_ c) (d_ c) ltac:(lia) Hg Hd1) as Hr.
    fold a in Hr.
    apply IH.
    + unfold loop_invariant. cbn [q0 q1 n_ d_].
      repeat split; try lia; try nia.
      rewrite gcd_step. exact Hg.
    + cbn [d_]. lia.
Qed.

End ConvergentLoop.

Lemma Qden_Qred_le (x : Q) : Zpos (Qden (Qred x)) <= Zpos (Qden x).
Proof.
  destruct x as [n d]. unfold Qred.
  pose proof (Z.ggcd_correct_divisors n (Zpos d)) as Hdiv.
  pose proof (Z.ggcd_gcd n (Zpos d)) as Hgcd.
  pose proof (Z.gcd_nonneg n (Zpos d)) as Hnn.
  destruct (Z.ggcd n (Zpos d)) as [g [aa bb]].
  cbn [fst snd Qden Qnum] in *.
  destruct Hdiv as [_ Hd]. rewrite <- Hgcd in Hnn.
  assert (Hpos : 0 < g * bb) by lia.
  assert (Hg : 1 <= g).
  { destruct (Z.eq_dec g 0) as [E | E]; [rewrite E in Hpos; lia | lia]. }
  assert (Hbb : 0 < bb) by nia.
  rewrite Z2Pos.id by lia. rewrite Hd.
  replace bb with (1 * bb) at 1 by ring.
  apply Z.mul_le_mono_nonneg_r; lia.
Qed.

Lemma Fraction_of_denominator (n d : Z) :
  0 < d -> exists f, Fraction_of n d = Ok f /\ 1 <= denominator f <= d.
Proof.
  intros Hd. unfold Fraction_of.
  destruct (Z.eqb_spec d 0); [lia | ].
  eexists. split; [reflexivity | ].
  unfold denominator.
  pose proof (Qden_Qred_le (Z.sgn d * n # Z.to_pos (Z.abs d))) as Hle.
  cbn [Qden] in Hle. rewrite Z2Pos.id in Hle by lia. lia.
Qed.

(** [limit_denominator] returns, and what it returns has a denominator
    within the bound. *)
Lemma limit_denominator_total (self : Q) (N : Z) :
  Z.gcd (numerator self) (denominator self) = 1 -> 1 <= N ->
  exists f, limit_denominator self N = Ok f /\ 1 <= denominator f <= N.
Proof.
  intros Hg HN. unfold limit_denominator.
  assert (Hpos : 0 < denominator self) by (unfold denominator; lia).
  destruct (Z.ltb_spec N 1); [lia | ].
  destruct (Z.leb_spec (denominator self) N) as [Hle | Hgt].
  - exists self. split; [reflexivity | lia].
  - cbn [convergent_loop d_ n_ q0 q1 p0 p1].
    destruct (Z.eqb_spec (denominator self) 0); [lia | ].
    set (a := numerator self / denominator self).
    replace (1 + a * 0) with 1 by ring.
    destruct (Z.gtb_spec 1 N); [lia | ].
    pose proof (remainder_positive (numerator self) (denominator self)
                  Hpos Hg ltac:(lia)) as Hr. fold a in Hr.
    destruct (convergent_loop_stops (denominator self) N
                (Z.to_nat (denominator self))
                (mkConv 1 0 (0 + a * 1) 1 (denominator self)
                        (numerator self - a * denominator self)))
      as [c [Hc [Hq0 Hq1]]].
    + unfold loop_invariant. cbn [q0 q1 n_ d_].
      repeat split; try lia. rewrite gcd_step. exact Hg.
    + cbn [d_]. lia.
    + rewrite Hc. cbn [bind]. unfold floordiv.
      destruct (Z.eqb_spec (q1 c) 0); [lia | ]. cbn [bind].
      set (k := (N - q0 c) / q1 c).
      assert (Hk : q1 c * k <= N - q0 c < q1 c * k + q1 c).
      { subst k. split.
        - apply Z.mul_div_le. lia.
        - pose proof (Z.mul_succ_div_gt (N - q0 c) (q1 c) ltac:(lia)). lia. }
      destruct (Fraction_of_denominator (p0 c + k * p1 c) (q0 c + k * q1 c))
        as [b1 [Hb1 Hd1]]; [lia | ].
      destruct (Fraction_of_denominator (p1 c) (q1 c)) as [b2 [Hb2 Hd2]]; [lia | ].
      rewrite Hb1, Hb2. cbn [bind].
      destruct (Qle_bool _ _); eexists; (split; [reflexivity | lia]).
Qed.

Lemma Fraction_in_lowest_terms (x : Q) :
  Z.gcd (numerator (Fraction x)) (denominator (Fraction x)) = 1.
Proof.
  unfold numerator, denominator, Fraction.
  apply Qred_iff. apply Qred_involutive.
Qed.

(** The period read off any phase is a positive integer within the bound. *)
Lemma extract_period_total (phase : Q) (N : Z) :
  1 <= N -> exists r, extract_period phase N = Ok r /\ 1 <= r <= N.
Proof.
  intros HN. unfold extract_period.
  destruct (limit_denominator_total (Fraction phase) N
              (Fraction_in_lowest_terms phase) HN) as [f [Hf Hd]].
  rewrite Hf. cbn [bind]. eexists. split; [reflexivity | exact Hd].
Qed.

(** ** Facts about the retry loop *)

Lemma reported_app (l1 l2 : list line) :
  reported (l1 ++ l2) = reported l1 ++ reported l2.
Proof.
  induction l1 as [ | l l1 IH]; [reflexivity | ].
  destruct l; simpl; now rewrite IH.
Qed.

Lemma reported_factors (gs : list Z) : reported (map PrintFactor gs) = gs.
Proof. induction gs as [ | g gs IH]; simpl; [reflexivity | now rewrite IH]. Qed.

Lemma nontrivial_divisor_spec (N g : Z) :
  nontrivial_divisor N g = true <-> g <> 1 /\ g <> N /\ N mod g = 0.
Proof.
  unfold nontrivial_divisor, py_in. simpl. rewrite orb_false_r.
  destruct (Z.eqb_spec g 1), (Z.eqb_spec g N), (Z.eqb_spec (N mod g) 0);
    simpl; split; try discriminate; try tauto; intros; repeat split; auto.
Qed.

Lemma nontrivial_divisor_divides (N g : Z) :
  nontrivial_divisor N g = true -> g <> 0 /\ (g | N).
Proof.
  intros H. apply nontrivial_divisor_spec in H. destruct H as [_ [HN Hm]].
  assert (Hg : g <> 0).
  { intros ->. rewrite Z.mod_0_r in Hm. congruence. }
  split; [exact Hg | ]. apply Z.mod_divide; assumption.
Qed.

(** On a guess that is a gcd with [N] the remainder is always defined. *)
Lemma accepted_gcd (x N : Z) :
  accepted N (Z.gcd x N) = Ok (nontrivial_divisor N (Z.gcd x N)).
Proof.
  unfold accepted, nontrivial_divisor, py_mod.
  destruct (py_in (Z.gcd x N) [1; N]) eqn:Hin; [reflexivity | ].
  simpl. destruct (Z.eqb_spec (Z.gcd x N) 0) as [H0 | Hne]; [ | reflexivity].
  exfalso. apply py_in_false in Hin. apply Hin.
  pose proof (Z.gcd_eq_0_r _ _ H0) as HN. simpl. right. left. congruence.
Qed.

Lemma check_guess_gcd (x N : Z) (st : state) :
  check_guess N (Z.gcd x N) st
  = Ok (if nontrivial_divisor N (Z.gcd x N)
        then mkState true (ATTEMPT st) (stdout st ++ [PrintFactor (Z.gcd x N)])
        else st).
Proof.
  unfold check_guess. rewrite accepted_gcd. cbn [bind].
  now destruct (nontrivial_divisor N (Z.gcd x N)).
Qed.

(** Lines 141-151 in closed form, for a phase that is not 0. *)
Lemma report_nonzero (a N r : Z) (phase : Q) (st : state) :
  Qeq_bool phase 0 = false ->
  report a N phase r st
  = Ok (mkState
          (FACTOR_FOUND st || existsb (nontrivial_divisor N) (guesses a N r))
          (ATTEMPT st)
          (stdout st
           ++ [PrintPeriod r;
               PrintGuesses (Z.gcd (a ^ (r / 2) - 1) N) (Z.gcd (a ^ (r / 2) + 1) N)]
           ++ map PrintFactor (filter (nontrivial_divisor N) (guesses a N r)))).
Proof.
  intros Hnz. unfold report, guesses. rewrite Hnz.
  cbn [negb nth for_each existsb filter].
  rewrite check_guess_gcd. cbn [bind].
  destruct (nontrivial_divisor N (Z.gcd (a ^ (r / 2) - 1) N)) eqn:E0;
    rewrite check_guess_gcd; cbn [bind for_each];
    destruct (nontrivial_divisor N (Z.gcd (a ^ (r / 2) + 1) N)) eqn:E1;
    unfold print; cbn [stdout ATTEMPT FACTOR_FOUND map];
    rewrite <- ?app_assoc; cbn [app];
    rewrite ?orb_true_r, ?orb_false_r; reflexivity.
Qed.

Lemma report_zero (a N r : Z) (phase : Q) (st : state) :
  Qeq_bool phase 0 = true ->
  report a N phase r st = Ok (print st (PrintPeriod r)).
Proof. intros Hz. unfold report. now rewrite Hz. Qed.

(** The driver's own call of [phase_estimation] always constructs, and
    the sampler accepts its circuit: what is left is the division. *)
Lemma driver_phase_estimation (a N m : Z) (op : ControlledGate) :
  c_amod15 a N = Ok op ->
  phase_estimation qiskit_register_size_ok op psi_prep 8 m
  = true_divide m (2 ^ 8).
Proof.
  intros Hop. destruct (c_amod15_in_range a N op Hop) as [_ [Hw _]].
  rewrite phase_estimation_closed; [reflexivity | ].
  rewrite build_circuit_ok_loop, build_loop_ok_iff, Hw. reflexivity.
Qed.

Lemma attempt_unfold (a N m r : Z) (op : ControlledGate) (phase : Q)
    (st : state) :
  c_amod15 a N = Ok op ->
  true_divide m (2 ^ 8) = Ok phase ->
  extract_period phase N = Ok r ->
  attempt a N m st
  = report a N phase r
      (mkState (FACTOR_FOUND st) (ATTEMPT st + 1)
               (stdout st ++ [PrintAttempt (ATTEMPT st + 1)])).
Proof.
  intros Hop Hphase Hr. unfold attempt. rewrite Hop. cbn [bind].
  rewrite (driver_phase_estimation a N m op Hop), Hphase. cbn [bind].
  rewrite Hr. reflexivity.
Qed.

Lemma attempt_inversion (a N m : Z) (st st' : state) :
  attempt a N m st = Ok st' ->
  exists op phase r,
    c_amod15 a N = Ok op /\
    true_divide m (2 ^ 8) = Ok phase /\
    extract_period phase N = Ok r /\ 1 <= r.
Proof.
  unfold attempt. destruct (c_amod15 a N) as [op | e] eqn:Hop; [ | discriminate].
  cbn [bind]. rewrite (driver_phase_estimation a N m op Hop).
  destruct (true_divide m (2 ^ 8)) as [phase | e] eqn:Hphase; [ | discriminate].
  cbn [bind].
  destruct (extract_period phase N) as [r | e] eqn:Hr; [ | discriminate].
  intros _. exists op, phase, r.
  split; [reflexivity | ]. split; [reflexivity | ]. split; [exact Hr | ].
  unfold extract_period in Hr.
  destruct (limit_denominator _ N) as [f | e]; [ | discriminate].
  cbn [bind] in Hr. injection Hr as <-. unfold denominator. lia.
Qed.

(** What one attempt adds to the factors already reported. *)
Lemma attempt_reports (a N m : Z) (st st' : state) :
  attempt a N m st = Ok st' ->
  exists gs, reported (stdout st') = reported (stdout st) ++ gs /\
             Forall (fun g => nontrivial_divisor N g = true) gs.
Proof.
  intros Hat.
  destruct (attempt_inversion _ _ _ _ _ Hat) as [op [phase [r [Hop [Hph [Hr _]]]]]].
  rewrite (attempt_unfold a N m r op phase st Hop Hph Hr) in Hat.
  destruct (Qeq_bool phase 0) eqn:Hz.
  - rewrite report_zero in Hat by exact Hz. injection Hat as <-.
    exists []. split; [ | constructor].
    cbn [print stdout]. rewrite !reported_app. simpl. now rewrite !app_nil_r.
  - rewrite report_nonzero in Hat by exact Hz. injection Hat as <-.
    exists (filter (nontrivial_divisor N) (guesses a N r)). split.
    + cbn [stdout]. rewrite !reported_app. cbn [reported app].
      rewrite reported_factors, app_nil_r. reflexivity.
    + apply Forall_forall. intros g Hg. apply filter_In in Hg. tauto.
Qed.

Lemma search_reports (a N : Z) (samples : list Z) :
  forall (st st' : state) (rest : list Z),
    search a N samples st = Ok (st', rest) ->
    exists gs, reported (stdout st') = reported (stdout st) ++ gs /\
               Forall (fun g => nontrivial_divisor N g = true) gs.
Proof.
  induction samples as [ | m samples IH]; intros st st' rest Hs.
  - assert (st' = st) as ->.
    { simpl in Hs. destruct (FACTOR_FOUND st); congruence. }
    exists []. split; [now rewrite app_nil_r | constructor].
  - cbn [search] in Hs. destruct (FACTOR_FOUND st).
    + injection Hs as <- <-. exists []. split; [now rewrite app_nil_r | constructor].
    + destruct (attempt a N m st) as [st1 | e] eqn:Hat; [ | discriminate].
      cbn [bind] in Hs.
      destruct (attempt_reports _ _ _ _ _ Hat) as [gs1 [H1 F1]].
      destruct (IH _ _ _ Hs) as [gs2 [H2 F2]].
      exists (gs1 ++ gs2). split.
      * rewrite H2, H1. now rewrite app_assoc.
      * apply Forall_app. split; assumption.
Qed.

(** C2: in an attempt whose phase is not 0, the guesses are the two gcds
    [gcd (a^(r//2) - 1) N] and [gcd (a^(r//2) + 1) N]; a guess is reported
    exactly when it is neither 1 nor [N] and [N mod guess = 0]; hence no
    run of the loop ever reports 1, [N], or a number that does not divide
    [N]. *)
Theorem driver_guesses (a N : Z) :
  (forall (r : Z) (phase : Q) (st : state),
      Qeq_bool phase 0 = false -> 1 <= r ->
      let g0 := Z.gcd (a ^ (r / 2) - 1) N in
      let g1 := Z.gcd (a ^ (r / 2) + 1) N in
      guesses a N r = [g0; g1] /\
      (forall g, In g [g0; g1] ->
         (accepted N g = Ok true <-> g <> 1 /\ g <> N /\ N mod g = 0)) /\
      exists st' out,
        report a N phase r st = Ok st' /\
        stdout st' = stdout st ++ [PrintPeriod r; PrintGuesses g0 g1] ++ out /\
        out = map PrintFactor (filter (nontrivial_divisor N) [g0; g1]) /\
        (forall g, In g (reported out)
                   <-> In g [g0; g1] /\ g <> 1 /\ g <> N /\ N mod g = 0) /\
        FACTOR_FOUND st'
          = FACTOR_FOUND st || existsb (nontrivial_divisor N) [g0; g1]) /\
  (forall (samples rest : list Z) (st' : state),
      search a N samples initial = Ok (st', rest) ->
      forall g, In g (reported (stdout st')) ->
                g <> 1 /\ g <> N /\ N mod g = 0 /\ (g | N)).
Proof.
  split.
  - intros r phase st Hnz Hr g0 g1.
    split; [reflexivity | ]. split.
    + intros g Hg.
      assert (Hacc : accepted N g = Ok (nontrivial_divisor N g)).
      { destruct Hg as [<- | [<- | []]]; apply accepted_gcd. }
      rewrite Hacc, <- nontrivial_divisor_spec. split; congruence.
    + eexists. eexists. split; [apply report_nonzero; exact Hnz | ].
      cbn [stdout FACTOR_FOUND]. split; [reflexivity | ].
      split; [reflexivity | ]. split; [ | reflexivity].
      intros g. rewrite reported_factors, filter_In, nontrivial_divisor_spec.
      reflexivity.
  - intros samples rest st' Hs g Hg.
    destruct (search_reports _ _ _ _ _ _ Hs) as [gs [Hout Hall]].
    rewrite Hout in Hg. simpl in Hg. rewrite Forall_forall in Hall.
    specialize (Hall g Hg).
    pose proof (nontrivial_divisor_divides _ _ Hall) as [_ Hdiv].
    apply nontrivial_divisor_spec in Hall. tauto.
Qed.

Lemma driver_guesses_witness :
  guesses 8 15 4 = [3; 5] /\
  (exists st', report 8 15 (3 # 4) 4 initial = Ok st' /\
               reported (stdout st') = [3; 5]) /\
  (forall g, In g [3; 5] -> g <> 1 /\ g <> 15 /\ (g | 15)).
Proof.
  destruct (driver_guesses 8 15) as [Hstep Hrun].
  destruct (Hstep 4 (3 # 4)%Q initial eq_refl ltac:(lia))
    as [Hg [_ [st' [out [Hrep [Hout [Hdef _]]]]]]].
  split; [exact Hg | ]. split.
  - exists st'. split; [exact Hrep | ]. rewrite Hout, Hdef. reflexivity.
  - intros g Hg'.
    destruct (Hrun [0; 64] [] (mkState true 2
                [PrintAttempt 1; PrintPeriod 1; PrintAttempt 2; PrintPeriod 4;
                 PrintGuesses 3 5; PrintFactor 3; PrintFactor 5])
                eq_refl g Hg') as [H1 [H2 [_ H3]]].
    repeat split; assumption.
Defined.

(** C8: an attempt whose estimated phase is 0 prints the attempt number
    and the period 1 and nothing else: no guesses, no factor, the flag
    untouched, the counter one higher, no exception; the loop goes on with
    the next sample. *)
Theorem zero_phase_retried (a N m : Z) (op : ControlledGate) (phase : Q)
    (st : state) (rest : list Z)
    (Hop : c_amod15 a N = Ok op)
    (Hphase : phase_estimation qiskit_register_size_ok op psi_prep 8 m = Ok phase)
    (Hzero : (phase == 0)%Q)
    (HN : 1 <= N) :
  let st' := mkState (FACTOR_FOUND st) (ATTEMPT st + 1)
               (stdout st ++ [PrintAttempt (ATTEMPT st + 1); PrintPeriod 1]) in
  attempt a N m st = Ok st' /\
  reported (stdout st') = reported (stdout st) /\
  (FACTOR_FOUND st = false -> search a N (m :: rest) st = search a N rest st').
Proof.
  intros st'.
  rewrite (driver_phase_estimation a N m op Hop) in Hphase.
  pose proof (extract_period_zero phase N Hzero HN) as Hr.
  assert (Hat : attempt a N m st = Ok st').
  { rewrite (attempt_unfold a N m 1 op phase st Hop Hphase Hr).
    rewrite report_zero by (apply Qeq_bool_iff; exact Hzero).
    subst st'. unfold print. cbn [FACTOR_FOUND ATTEMPT stdout].
    now rewrite <- app_assoc. }
  split; [exact Hat | ]. split.
  - subst st'. cbn [stdout]. rewrite reported_app. simpl. apply app_nil_r.
  - intros Hnf. cbn [search]. rewrite Hnf, Hat. reflexivity.
Qed.

Lemma zero_phase_retried_witness :
  attempt 8 15 0 initial
  = Ok (mkState false 1 [PrintAttempt 1; PrintPeriod 1]) /\
  search 8 15 [0; 64] initial
  = search 8 15 [64] (mkState false 1 [PrintAttempt 1; PrintPeriod 1]).
Proof.
  destruct (zero_phase_retried 8 15 0
              (mkCG (mkName 8 15)
                 (swap (swap (swap (new_circuit 4) 0 1) 1 2) 2 3) 1)
              0%Q initial [64]
              eq_refl ltac:(vm_compute; reflexivity) ltac:(reflexivity)
              ltac:(lia))
    as [Hat [_ Hnext]].
  split; [exact Hat | exact (Hnext eq_refl)].
Defined.

(** C10: when both guesses of an attempt are non-trivial divisors of [N],
    both are printed, the first before the second, and the loop ends with
    the state reached after the second: the remaining samples are left
    unused. *)
Theorem both_guesses_reported (a N m r : Z) (op : ControlledGate) (phase : Q)
    (st : state) (rest : list Z)
    (Hop : c_amod15 a N = Ok op)
    (Hphase : phase_estimation qiskit_register_size_ok op psi_prep 8 m = Ok phase)
    (Hnz : ~ (phase == 0)%Q)
    (Hr : extract_period phase N = Ok r)
    (H0 : Z.gcd (a ^ (r / 2) - 1) N <> 1 /\ Z.gcd (a ^ (r / 2) - 1) N <> N /\
          (Z.gcd (a ^ (r / 2) - 1) N | N))
    (H1 : Z.gcd (a ^ (r / 2) + 1) N <> 1 /\ Z.gcd (a ^ (r / 2) + 1) N <> N /\
          (Z.gcd (a ^ (r / 2) + 1) N | N)) :
  let g0 := Z.gcd (a ^ (r / 2) - 1) N in
  let g1 := Z.gcd (a ^ (r / 2) + 1) N in
  let st' := mkState true (ATTEMPT st + 1)
               (stdout st ++ [PrintAttempt (ATTEMPT st + 1); PrintPeriod r;
                              PrintGuesses g0 g1; PrintFactor g0; PrintFactor g1]) in
  attempt a N m st = Ok st' /\
  (FACTOR_FOUND st = false -> search a N (m :: rest) st = Ok (st', rest)).
Proof.
  intros g0 g1 st'. subst g0 g1 st'.
  rewrite (driver_phase_estimation a N m op Hop) in Hphase.
  assert (Hnd : forall x, Z.gcd x N <> 1 /\ Z.gcd x N <> N /\ (Z.gcd x N | N) ->
                          nontrivial_divisor N (Z.gcd x N) = true).
  { intros x [Hx1 [HxN Hdiv]]. apply nontrivial_divisor_spec.
    repeat split; try assumption.
    destruct (Z.eq_dec (Z.gcd x N) 0) as [E | E].
    - exfalso. apply HxN. rewrite E. symmetry. apply (Z.gcd_eq_0_r _ _ E).
    - apply Z.mod_divide; assumption. }
  assert (Hat : attempt a N m st
                = Ok (mkState true (ATTEMPT st + 1)
                        (stdout st ++ [PrintAttempt (ATTEMPT st + 1); PrintPeriod r;
                                       PrintGuesses (Z.gcd (a ^ (r / 2) - 1) N)
                                                    (Z.gcd (a ^ (r / 2) + 1) N);
                                       PrintFactor (Z.gcd (a ^ (r / 2) - 1) N);
                                       PrintFactor (Z.gcd (a ^ (r / 2) + 1) N)]))).
  { rewrite (attempt_unfold a N m r op phase st Hop Hphase Hr).
    rewrite report_nonzero.
    - unfold guesses. cbn [existsb filter].
      rewrite (Hnd _ H0), (Hnd _ H1).
      cbn [map FACTOR_FOUND ATTEMPT stdout].
      rewrite orb_true_r, <- app_assoc. reflexivity.
    - destruct (Qeq_bool phase 0) eqn:E; [ | reflexivity].
      exfalso. apply Hnz. apply Qeq_bool_iff. exact E. }
  split; [exact Hat | ].
  intros Hnf. cbn [search]. rewrite Hnf, Hat. cbn [bind].
  destruct rest; reflexivity.
Qed.

Lemma both_guesses_reported_witness :
  search 8 15 [64; 7; 9] initial
  = Ok (mkState true 1
          [PrintAttempt 1; PrintPeriod 4; PrintGuesses 3 5;
           PrintFactor 3; PrintFactor 5],
        [7; 9]).
Proof.
  refine (proj2 (both_guesses_reported 8 15 64 4
              (mkCG (mkName 8 15)
                 (swap (swap (swap (new_circuit 4) 0 1) 1 2) 2 3) 1)
              (1 # 4)%Q initial [7; 9]
              eq_refl ltac:(vm_compute; reflexivity) _ eq_refl _ _) eq_refl).
  - intros H. discriminate H.
  - repeat split; try discriminate. exists 5. reflexivity.
  - repeat split; try discriminate. exists 3. reflexivity.
Defined.

(** ** Further facts about [c_amod15] *)

Lemma c_amod15_keeps_range (a N : Z) (g : ControlledGate) (s : list bool) :
  c_amod15 a N = Ok g -> List.length s = 4%nat -> 1 <= to_int s <= 14 ->
  List.length (run (data (base g)) s) = 4%nat /\
  1 <= to_int (run (data (base g)) s) <= 14.
Proof.
  unfold c_amod15. destruct (py_in a units15) eqn:Hin; simpl; [ | discriminate].
  apply py_in_spec in Hin. intros Hg Hlen. four_bits s Hlen.
  in_units Hin; injection Hg as <-;
    destruct b, b0, b1, b2; vm_compute; intros [H1 H2];
    repeat split; try discriminate;
    solve [ exfalso; apply H1; reflexivity | exfalso; apply H2; reflexivity ].
Qed.

(** The docstring's promise, on basis states: the gate built for [a]
    multiplies the encoded value by [a] modulo 15, for every value from 1
    to 14 and whatever [N] was passed; the result is again such a value. *)
Theorem c_amod15_is_multiplication (a N : Z) (g : ControlledGate)
    (s : list bool)
    (Hg : c_amod15 a N = Ok g)
    (Hlen : List.length s = 4%nat)
    (Hval : 1 <= to_int s <= 14) :
  to_int (run (data (base g)) s) = (a * to_int s) mod 15 /\
  to_int (run_controlled g true s) = (a * to_int s) mod 15 /\
  run_controlled g false s = s /\
  List.length (run (data (base g)) s) = 4%nat /\
  1 <= to_int (run (data (base g)) s) <= 14.
Proof.
  pose proof (c_amod15_multiplies a N g s Hg Hlen Hval) as Hm.
  pose proof (c_amod15_keeps_range a N g s Hg Hlen Hval) as [Hl Hr].
  repeat split; try assumption; try apply Hr.
Qed.

Lemma c_amod15_is_multiplication_witness :
  exists g, c_amod15 7 0 = Ok g /\
            to_int (run (data (base g)) [true; true; false; true]) = 2.
Proof.
  eexists. split; [reflexivity | ].
  refine (proj1 (c_amod15_is_multiplication 7 0 _ [true; true; false; true]
                   eq_refl eq_refl _)).
  vm_compute. split; discriminate.
Defined.

Lemma iterate_multiplies (a N : Z) (g : ControlledGate) (k : nat) :
  c_amod15 a N = Ok g ->
  forall s : list bool, List.length s = 4%nat -> 1 <= to_int s <= 14 ->
    to_int (iterate k (run (data (base g))) s)
    = (a ^ Z.of_nat k * to_int s) mod 15.
Proof.
  intros Hg. induction k as [ | k IH]; intros s Hlen Hval.
  - simpl iterate. rewrite Z.pow_0_r, Z.mul_1_l.
    symmetry. apply Z.mod_small. lia.
  - cbn [iterate].
    destruct (c_amod15_keeps_range a N g s Hg Hlen Hval) as [Hl Hr].
    rewrite (IH _ Hl Hr).
    rewrite (c_amod15_multiplies a N g s Hg Hlen Hval).
    rewrite Z.mul_mod_idemp_r by lia.
    rewrite Nat2Z.inj_succ, Z.pow_succ_r by lia.
    f_equal. ring.
Qed.

(** On the state the driver prepares (target bit 0 set, value 1), [k]
    applications of the gate leave the value [a^k mod 15]: the orbit whose
    length the phase estimation measures. *)
Theorem c_amod15_orbit (a N : Z) (g : ControlledGate) (k : nat)
    (Hg : c_amod15 a N = Ok g) :
  run (data psi_prep) [false; false; false; false]
    = [true; false; false; false] /\
  to_int (iterate k (run (data (base g)))
            (run (data psi_prep) [false; false; false; false]))
  = a ^ Z.of_nat k mod 15.
Proof.
  split; [reflexivity | ].
  change (run (data psi_prep) [false; false; false; false])
    with [true; false; false; false].
  rewrite (iterate_multiplies a N g k Hg) by (vm_compute; intuition discriminate).
  f_equal. change (to_int [true; false; false; false]) with 1. ring.
Qed.

Lemma c_amod15_orbit_witness :
  exists g, c_amod15 8 15 = Ok g /\
    to_int (iterate 3 (run (data (base g))) [true; false; false; false]) = 2.
Proof.
  eexists. split; [reflexivity | ].
  exact (proj2 (c_amod15_orbit 8 15 _ 3 eq_refl)).
Defined.

(** The table against its error message: among all integers, the accepted
    multipliers are the numbers coprime to 15 strictly between 1 and 14, so
    1 and 14, which have no common factor with 15, are refused all the
    same, and so is every multiplier of 15 or more. *)
Theorem c_amod15_accepts_iff (a N : Z) :
  is_ok (c_amod15 a N) = true <-> 1 < a < 14 /\ Z.gcd a 15 = 1.
Proof.
  assert (Hok : is_ok (c_amod15 a N) = py_in a units15).
  { unfold c_amod15. now destruct (py_in a units15). }
  rewrite Hok, py_in_spec. split.
  - intros Ha. in_units Ha; split; try lia; reflexivity.
  - intros [Hr Hg].
    assert (Hc : a = 2 \/ a = 3 \/ a = 4 \/ a = 5 \/ a = 6 \/ a = 7 \/ a = 8
                 \/ a = 9 \/ a = 10 \/ a = 11 \/ a = 12 \/ a = 13) by lia.
    unfold units15.
    repeat (destruct Hc as [-> | Hc]; [first [simpl; tauto | discriminate Hg] | ]).
    subst a. simpl. tauto.
Qed.

Lemma c_amod15_accepts_iff_witness :
  is_ok (c_amod15 11 15) = true /\ is_ok (c_amod15 14 15) = false /\
  is_ok (c_amod15 1 15) = false /\ Z.gcd 14 15 = 1.
Proof.
  split; [ | repeat split].
  apply (proj2 (c_amod15_accepts_iff 11 15)). split; [lia | reflexivity].
Defined.

(** ** Further facts about the estimation circuit *)

Lemma loop_instrs_length (op : ControlledGate) (t : list nat) (n s : nat) :
  (List.length (loop_instrs op t (map (fun j => (j, j)) (seq s n))) + 2 ^ s
   = n + 2 ^ (s + n))%nat.
Proof.
  revert s. induction n as [ | n IH]; intros s.
  - simpl. now rewrite Nat.add_0_r.
  - cbn [seq map]. rewrite loop_instrs_cons, length_app.
    cbn [List.length]. rewrite repeat_length.
    specialize (IH (S s)). rewrite Nat.pow_succ_r' in IH.
    replace (s + S n)%nat with (S s + n)%nat by lia. lia.
Qed.

Lemma filter_controlled_loop (op : ControlledGate) (t : list nat) (n s : nat) :
  (List.length (filter is_controlled
                  (loop_instrs op t (map (fun j => (j, j)) (seq s n)))) + 2 ^ s
   = 2 ^ (s + n))%nat.
Proof.
  revert s. induction n as [ | n IH]; intros s.
  - simpl. now rewrite Nat.add_0_r.
  - cbn [seq map]. rewrite loop_instrs_cons, filter_app, length_app.
    cbn [filter is_controlled].
    assert (Hrep : forall k,
               filter is_controlled (repeat (IControlled op (s :: t)) k)
               = repeat (IControlled op (s :: t)) k).
    { induction k as [ | k IHk]; simpl; [reflexivity | now rewrite IHk]. }
    rewrite Hrep, repeat_length.
    specialize (IH (S s)). rewrite Nat.pow_succ_r' in IH.
    replace (s + S n)%nat with (S s + n)%nat by lia. lia.
Qed.

Lemma filter_h_loop (op : ControlledGate) (t : list nat) (i n s : nat) :
  filter (is_h i) (loop_instrs op t (map (fun j => (j, j)) (seq s n)))
  = if Nat.leb s i && Nat.ltb i (s + n) then [IH i] else [].
Proof.
  revert s. induction n as [ | n IH]; intros s.
  - simpl. destruct (Nat.leb s i) eqn:E1; [ | reflexivity].
    destruct (Nat.ltb i (s + 0)) eqn:E2; [ | reflexivity].
    apply Nat.leb_le in E1. apply Nat.ltb_lt in E2. lia.
  - cbn [seq map]. rewrite loop_instrs_cons, filter_app.
    cbn [filter is_h].
    assert (Hrep : forall k,
               filter (is_h i) (repeat (IControlled op (s :: t)) k) = []).
    { induction k as [ | k IHk]; simpl; [reflexivity | exact IHk]. }
    rewrite Hrep, IH.
    destruct (Nat.eqb_spec s i) as [-> | Hne].
    + replace (Nat.leb (S i) i) with false by (symmetry; apply Nat.leb_gt; lia).
      replace (Nat.leb i i) with true by (symmetry; apply Nat.leb_le; lia).
      replace (Nat.ltb i (i + S n)) with true by (symmetry; apply Nat.ltb_lt; lia).
      reflexivity.
    + cbn [app].
      destruct (Nat.leb (S s) i) eqn:E1, (Nat.leb s i) eqn:E2,
        (Nat.ltb i (S s + n)) eqn:E3, (Nat.ltb i (s + S n)) eqn:E4;
        try reflexivity; exfalso;
        rewrite ?Nat.leb_le, ?Nat.leb_gt, ?Nat.ltb_lt, ?Nat.ltb_ge in *; lia.
Qed.

Lemma filter_measure_loop (op : ControlledGate) (t : list nat)
    (l : list (nat * nat)) :
  filter is_measure (loop_instrs op t l) = [].
Proof.
  apply filter_none. intros ins Hin. unfold loop_instrs in Hin.
  apply in_flat_map in Hin. destruct Hin as [[index qubit] [_ Hins]].
  destruct Hins as [<- | Hins]; [reflexivity | ].
  apply repeat_spec in Hins. now subst ins.
Qed.

Lemma filter_measure_tail (n : nat) :
  filter is_measure (tail_instrs n) = map (fun i => IMeasure i i) (seq 0 n).
Proof.
  unfold tail_instrs. rewrite filter_app.
  assert (Hm : forall l : list nat,
             filter is_measure (map (fun i => IMeasure i i) l)
             = map (fun i => IMeasure i i) l).
  { induction l as [ | i l IH]; simpl; [reflexivity | now rewrite IH]. }
  rewrite Hm. now destruct n.
Qed.

Lemma tail_length (n : nat) :
  List.length (tail_instrs n)
  = ((match n with O => 0 | S _ => 1 end) + n)%nat.
Proof.
  unfold tail_instrs. rewrite length_app, length_map, length_seq.
  now destruct n.
Qed.

Lemma tail_no_h (i n : nat) : filter (is_h i) (tail_instrs n) = [].
Proof.
  apply filter_none. intros ins Hin. unfold tail_instrs in Hin.
  apply in_app_or in Hin. destruct Hin as [Hin | Hin].
  - destruct n; [destruct Hin | ]. destruct Hin as [<- | []]. reflexivity.
  - apply in_map_iff in Hin. destruct Hin as [j [<- _]]. reflexivity.
Qed.

(** The size of the circuit: the state preparation's gates, one Hadamard
    per control bit, [2^precision - 1] applications of the controlled
    operation in all, the inverse transform (one instruction, absent when
    there is no control bit) and one measurement per control bit, each
    into the classical bit of the same rank. *)
Theorem build_circuit_size (ok : Z -> bool) (op : ControlledGate)
    (psi : QuantumCircuit) (precision : Z) (qc : EstimationCircuit)
    (Hbuilt : build_circuit ok op psi precision = Ok qc) :
  let n := Z.to_nat precision in
  (List.length (filter is_controlled (instrs qc)) + 1 = 2 ^ n)%nat /\
  (List.length (instrs qc) + 1
   = List.length (data psi) + n + 2 ^ n
     + (match n with O => 0 | S _ => 1 end) + n)%nat /\
  (forall i : nat, (i < n)%nat -> filter (is_h i) (instrs qc) = [IH i]) /\
  (forall i : nat, (n <= i)%nat -> filter (is_h i) (instrs qc) = []) /\
  filter is_measure (instrs qc) = map (fun i => IMeasure i i) (seq 0 n).
Proof.
  intros n.
  destruct (build_circuit_instrs _ _ _ _ _ Hbuilt) as [_ [_ [_ Hi]]].
  fold n in Hi.
  assert (Hpre1 : forall l : list gate_op,
             filter is_controlled
               (map (fun g => IGate (remap (target_register qc) g)) l) = []).
  { induction l as [ | g l IH]; simpl; [reflexivity | exact IH]. }
  assert (Hpre2 : forall (i : nat) (l : list gate_op),
             filter (is_h i)
               (map (fun g => IGate (remap (target_register qc) g)) l) = []).
  { intros i. induction l as [ | g l IH]; simpl; [reflexivity | exact IH]. }
  assert (Hpre3 : forall l : list gate_op,
             filter is_measure
               (map (fun g => IGate (remap (target_register qc) g)) l) = []).
  { induction l as [ | g l IH]; simpl; [reflexivity | exact IH]. }
  pose proof (loop_instrs_length op (target_register qc) n 0) as Hlen.
  pose proof (filter_controlled_loop op (target_register qc) n 0) as Hctl.
  cbn [Nat.pow Nat.add] in Hlen, Hctl.
  split; [ | split; [ | split; [ | split]]].
  - rewrite Hi, !filter_app, Hpre1.
    rewrite (filter_none is_controlled (tail_instrs n))
      by (intros x Hx; apply (tail_not_controlled _ _ Hx)).
    cbn [app]. rewrite app_nil_r. lia.
  - rewrite Hi, !length_app, length_map, tail_length. lia.
  - intros i Hlt. rewrite Hi, !filter_app, Hpre2, filter_h_loop, tail_no_h.
    cbn [app].
    replace (Nat.leb 0 i) with true by (symmetry; apply Nat.leb_le; lia).
    replace (Nat.ltb i (0 + n)) with true by (symmetry; apply Nat.ltb_lt; lia).
    reflexivity.
  - intros i Hge. rewrite Hi, !filter_app, Hpre2, filter_h_loop, tail_no_h.
    cbn [app].
    replace (Nat.ltb i (0 + n)) with false by (symmetry; apply Nat.ltb_ge; lia).
    now rewrite andb_false_r.
  - rewrite Hi, !filter_app, Hpre3, filter_measure_loop, filter_measure_tail.
    reflexivity.
Qed.

Lemma build_circuit_size_witness :
  exists qc,
    build_circuit qiskit_register_size_ok
      (mkCG (mkName 8 15) (swap (swap (swap (new_circuit 4) 0 1) 1 2) 2 3) 1)
      psi_prep 3 = Ok qc /\
    List.length (instrs qc) = 15%nat.
Proof.
  destruct (build_circuit qiskit_register_size_ok
              (mkCG (mkName 8 15)
                 (swap (swap (swap (new_circuit 4) 0 1) 1 2) 2 3) 1)
              psi_prep 3) as [qc | e] eqn:Hb; [ | vm_compute in Hb; discriminate Hb].
  exists qc. split; [reflexivity | ].
  destruct (build_circuit_size _ _ _ _ _ Hb) as [_ [Hn _]].
  change (List.length (data psi_prep)) with 1%nat in Hn.
  change (Z.to_nat 3) with 3%nat in Hn. cbn [Nat.pow Nat.mul Nat.add] in Hn. lia.
Defined.

Lemma in_loop_instrs_any (op : ControlledGate) (t : list nat) (n : nat)
    (ins : instruction) :
  In ins (loop_instrs op t (map (fun j => (j, j)) (seq 0 n))) ->
  exists i, (i < n)%nat /\ (ins = IH i \/ ins = IControlled op (i :: t)).
Proof.
  unfold loop_instrs. rewrite in_flat_map. intros [[index qubit] [Hin Hins]].
  apply in_map_iff in Hin. destruct Hin as [j [[= <- <-] Hj]].
  apply in_seq in Hj. exists j. split; [lia | ].
  destruct Hins as [<- | Hins]; [now left | ].
  apply repeat_spec in Hins. now right.
Qed.

Lemma remap_in_target (nc nt : nat) (g : gate_op) (q : nat) :
  op_in_range nt g = true ->
  In q (instr_qubits (IGate (remap (seq nc nt) g))) ->
  (nc <= q < nc + nt)%nat.
Proof.
  destruct g as [q1 q2 | q1]; cbn [op_in_range remap instr_qubits].
  - rewrite !andb_true_iff, !Nat.ltb_lt. intros [[H1 H2] _] [<- | [<- | []]];
      rewrite seq_nth by assumption; lia.
  - rewrite Nat.ltb_lt. intros H1 [<- | []].
    rewrite seq_nth by assumption. lia.
Qed.

(** Qubit discipline of the built circuit, for a state preparation whose
    gates stay inside its own width: control and target registers do not
    overlap; the state preparation touches target qubits only; every
    controlled operation has a control-register qubit as control and the
    whole target register, none of them twice; no instruction reaches
    outside the circuit. *)
Theorem build_circuit_qubits (ok : Z -> bool) (op : ControlledGate)
    (psi : QuantumCircuit) (precision : Z) (qc : EstimationCircuit)
    (Hbuilt : build_circuit ok op psi precision = Ok qc)
    (Hpsi : forallb (op_in_range (num_qubits psi)) (data psi) = true) :
  let nc := Z.to_nat precision in
  let nt := num_qubits psi in
  NoDup (control_register qc ++ target_register qc) /\
  (forall g q, In (IGate g) (instrs qc) -> In q (instr_qubits (IGate g)) ->
               In q (target_register qc)) /\
  (forall g qargs, In (IControlled g qargs) (instrs qc) ->
     NoDup qargs /\
     exists c, qargs = c :: target_register qc /\ In c (control_register qc)) /\
  (forall ins q, In ins (instrs qc) -> In q (instr_qubits ins) ->
                 (q < nc + nt)%nat).
Proof.
  intros nc nt.
  destruct (build_circuit_instrs _ _ _ _ _ Hbuilt) as [Hc [Ht [Ho Hi]]].
  fold nc in Hc, Ht, Ho, Hi. fold nt in Ht.
  assert (Hsplit : forall ins, In ins (instrs qc) ->
            (exists g, In g (data psi) /\ ins = IGate (remap (seq nc nt) g)) \/
            (exists i, (i < nc)%nat /\
                       (ins = IH i \/ ins = IControlled op (i :: seq nc nt))) \/
            ins = IQFT true (seq 0 nc) \/
            (exists i, (i < nc)%nat /\ ins = IMeasure i i)).
  { intros ins Hin. rewrite Hi, Ht in Hin.
    apply in_app_or in Hin. destruct Hin as [Hin | Hin].
    - left. apply in_map_iff in Hin. destruct Hin as [g [<- Hg]]. now exists g.
    - apply in_app_or in Hin. destruct Hin as [Hin | Hin].
      + right. left. now apply in_loop_instrs_any.
      + right. right. unfold tail_instrs in Hin.
        apply in_app_or in Hin. destruct Hin as [Hin | Hin].
        * left. destruct nc; [destruct Hin | ].
          destruct Hin as [<- | []]. reflexivity.
        * right. apply in_map_iff in Hin. destruct Hin as [i [<- Hi']].
          apply in_seq in Hi'. exists i. split; [lia | reflexivity]. }
  rewrite forallb_forall in Hpsi.
  assert (Hnd : NoDup (seq 0 nc ++ seq nc nt)).
  { change nc with (0 + nc)%nat at 2. rewrite <- seq_app. apply seq_NoDup. }
  split; [ | split; [ | split]].
  - rewrite Hc, Ht. exact Hnd.
  - intros g q Hin Hq. rewrite Ht. apply in_seq.
    destruct (Hsplit _ Hin)
      as [[g' [Hg' E]] | [[i [_ [E | E]]] | [E | [i [_ E]]]]];
      try discriminate E.
    rewrite E in Hq. apply (remap_in_target nc nt g' q (Hpsi _ Hg') Hq).
  - intros g qargs Hin.
    destruct (Hsplit _ Hin)
      as [[g' [_ E]] | [[i [Hlt [E | E]]] | [E | [i [_ E]]]]];
      try discriminate E.
    injection E as _ ->. split.
    + constructor; [rewrite in_seq; lia | apply seq_NoDup].
    + exists i. rewrite Hc, Ht. split; [reflexivity | ].
      apply in_seq. lia.
  - intros ins q Hin Hq.
    destruct (Hsplit _ Hin)
      as [[g' [Hg' E]] | [[i [Hlt [E | E]]] | [E | [i [Hlt E]]]]];
      subst ins.
    + pose proof (remap_in_target nc nt g' q (Hpsi _ Hg') Hq). lia.
    + simpl in Hq. destruct Hq as [<- | []]. lia.
    + simpl in Hq. destruct Hq as [<- | Hq]; [lia | ].
      apply in_seq in Hq. lia.
    + simpl in Hq. apply in_seq in Hq. lia.
    + simpl in Hq. destruct Hq as [<- | []]. lia.
Qed.

Lemma build_circuit_qubits_witness :
  exists qc,
    build_circuit qiskit_register_size_ok
      (mkCG (mkName 8 15) (swap (swap (swap (new_circuit 4) 0 1) 1 2) 2 3) 1)
      psi_prep 2 = Ok qc /\
    NoDup (control_register qc ++ target_register qc).
Proof.
  destruct (build_circuit qiskit_register_size_ok
              (mkCG (mkName 8 15)
                 (swap (swap (swap (new_circuit 4) 0 1) 1 2) 2 3) 1)
              psi_prep 2) as [qc | e] eqn:Hb; [ | vm_compute in Hb; discriminate Hb].
  exists qc. split; [reflexivity | ].
  exact (proj1 (build_circuit_qubits _ _ _ _ _ Hb eq_refl)).
Defined.

(** ** Further facts about the retry loop *)

Lemma attempt_factors_spec (a N : Z) (phase : Q) (r g : Z) :
  In g (attempt_factors a N phase r) ->
  nontrivial_divisor N g = true /\ 0 <= g.
Proof.
  unfold attempt_factors. destruct (Qeq_bool phase 0); [intros [] | ].
  intros Hg. apply filter_In in Hg. destruct Hg as [Hin Hnd].
  split; [exact Hnd | ].
  destruct Hin as [<- | [<- | []]]; apply Z.gcd_nonneg.
Qed.

Lemma attempt_factors_length (a N : Z) (phase : Q) (r : Z) :
  (List.length (attempt_factors a N phase r) <= 2)%nat.
Proof.
  unfold attempt_factors, guesses. destruct (Qeq_bool phase 0); [simpl; lia | ].
  cbn [filter]. repeat destruct (nontrivial_divisor _ _); simpl; lia.
Qed.

(** What one attempt does to the state. *)
Lemma attempt_effect (a N m : Z) (st st1 : state) :
  attempt a N m st = Ok st1 ->
  exists phase r,
    true_divide m (2 ^ 8) = Ok phase /\
    extract_period phase N = Ok r /\ 1 <= r /\
    ATTEMPT st1 = ATTEMPT st + 1 /\
    reported (stdout st1)
      = reported (stdout st) ++ attempt_factors a N phase r /\
    FACTOR_FOUND st1
      = match attempt_factors a N phase r with
        | [] => FACTOR_FOUND st
        | _ :: _ => true
        end.
Proof.
  intros Hat.
  destruct (attempt_inversion _ _ _ _ _ Hat)
    as [op [phase [r [Hop [Hph [Hr Hr1]]]]]].
  exists phase, r. split; [exact Hph | ]. split; [exact Hr | ].
  split; [exact Hr1 | ].
  rewrite (attempt_unfold a N m r op phase st Hop Hph Hr) in Hat.
  unfold attempt_factors.
  destruct (Qeq_bool phase 0) eqn:Hz.
  - rewrite report_zero in Hat by exact Hz. injection Hat as <-.
    cbn [print stdout ATTEMPT FACTOR_FOUND]. repeat split.
    rewrite !reported_app. simpl. now rewrite !app_nil_r.
  - rewrite report_nonzero in Hat by exact Hz. injection Hat as <-.
    cbn [stdout ATTEMPT FACTOR_FOUND]. repeat split.
    + rewrite !reported_app. cbn [reported app].
      now rewrite reported_factors, app_nil_r.
    + unfold guesses. cbn [existsb filter].
      destruct (nontrivial_divisor N (Z.gcd (a ^ (r / 2) - 1) N)),
        (nontrivial_divisor N (Z.gcd (a ^ (r / 2) + 1) N));
        cbn [orb]; rewrite ?orb_true_r, ?orb_false_r; reflexivity.
Qed.

(** What the loop does, started with the flag down. *)
Lemma search_effect (a N : Z) (samples : list Z) :
  forall (st st' : state) (rest : list Z),
    FACTOR_FOUND st = false ->
    search a N samples st = Ok (st', rest) ->
    exists used gs,
      samples = used ++ rest /\
      ATTEMPT st' = ATTEMPT st + Z.of_nat (List.length used) /\
      reported (stdout st') = reported (stdout st) ++ gs /\
      (List.length gs <= 2)%nat /\
      (FACTOR_FOUND st' = true <-> gs <> []) /\
      (FACTOR_FOUND st' = false -> rest = []) /\
      (forall g, In g gs -> nontrivial_divisor N g = true /\ 0 <= g).
Proof.
  induction samples as [ | m samples IH]; intros st st' rest Hnf Hs.
  - cbn [search] in Hs. rewrite Hnf in Hs. injection Hs as <- <-.
    exists [], []. rewrite !app_nil_r, Z.add_0_r.
    split; [reflexivity | ]. split; [reflexivity | ]. split; [reflexivity | ].
    split; [simpl; lia | ].
    split; [split; [congruence | intros H; now elim H] | ].
    split; [reflexivity | intros g []].
  - cbn [search] in Hs. rewrite Hnf in Hs.
    destruct (attempt a N m st) as [st1 | e] eqn:Hat; [ | discriminate].
    cbn [bind] in Hs.
    destruct (attempt_effect _ _ _ _ _ Hat)
      as [phase [r [_ [_ [_ [Hcnt [Hrep Hflag]]]]]]].
    pose proof (attempt_factors_length a N phase r) as Hlen.
    pose proof (attempt_factors_spec a N phase r) as Hspec.
    destruct (attempt_factors a N phase r) as [ | g gs] eqn:Hgs.
    + rewrite Hnf in Hflag. rewrite app_nil_r in Hrep.
      destruct (IH _ _ _ Hflag Hs) as [used [gs' [Hu [Hc [Hr' Hrest]]]]].
      exists (m :: used), gs'. split; [simpl; now rewrite Hu | ].
      split; [rewrite Hc, Hcnt; cbn [List.length]; lia | ].
      split; [rewrite Hr', Hrep; reflexivity | exact Hrest].
    + assert (Hstop : search a N samples st1 = Ok (st1, samples)).
      { destruct samples; cbn [search]; now rewrite Hflag. }
      rewrite Hstop in Hs. injection Hs as <- <-.
      exists [m], (g :: gs).
      split; [reflexivity | ]. split; [rewrite Hcnt; reflexivity | ].
      split; [exact Hrep | ]. split; [exact Hlen | ].
      split; [split; [discriminate | intros _; exact Hflag] | ].
      split; [congruence | exact Hspec].
Qed.

Lemma c_amod15_ok (a N : Z) :
  In a units15 -> exists op, c_amod15 a N = Ok op.
Proof.
  intros Ha. apply py_in_spec in Ha. unfold c_amod15. rewrite Ha.
  eexists. reflexivity.
Qed.

Lemma report_ok (a N : Z) (phase : Q) (r : Z) (st : state) :
  exists st', report a N phase r st = Ok st'.
Proof.
  destruct (Qeq_bool phase 0) eqn:Hz.
  - eexists. apply report_zero. exact Hz.
  - eexists. apply report_nonzero. exact Hz.
Qed.

Lemma attempt_ok (a N m : Z) (st : state) :
  In a units15 -> 1 <= N -> 0 <= m < 2 ^ 8 ->
  exists st' phase r,
    attempt a N m st = Ok st' /\
    true_divide m (2 ^ 8) = Ok phase /\
    (phase == sample_to_phase m 8)%Q /\
    extract_period phase N = Ok r /\ 1 <= r <= N.
Proof.
  intros Ha HN Hm. destruct (c_amod15_ok a N Ha) as [op Hop].
  destruct (true_divide_exact m 8 ltac:(lia) Hm) as [phase [Hph Hex]].
  { apply Z.lt_trans with (2 ^ 8); [lia | reflexivity]. }
  destruct (extract_period_total phase N HN) as [r [Hr Hb]].
  destruct (report_ok a N phase r
              (mkState (FACTOR_FOUND st) (ATTEMPT st + 1)
                 (stdout st ++ [PrintAttempt (ATTEMPT st + 1)]))) as [st' Hst'].
  exists st', phase, r.
  split; [rewrite (attempt_unfold a N m r op phase st Hop Hph Hr); exact Hst' | ].
  split; [exact Hph | ].
  split; [rewrite Hex; symmetry; apply sample_to_phase_value; lia | ].
  split; [exact Hr | exact Hb].
Qed.

(** With a multiplier of the table and a modulus of at least 1, nothing in
    the loop can raise on the samples the sampler can return for the eight
    output bits: the division of line 84 is exact, [limit_denominator]
    never divides by zero, the remainder test never takes a zero guess,
    and the period lies between 1 and [N]; so the whole loop completes on
    any finite sequence of such samples. *)
Theorem search_never_raises (a N : Z)
    (Ha : In a [2; 4; 7; 8; 11; 13]) (HN : 1 <= N) :
  (forall (m : Z) (st : state),
      0 <= m < 2 ^ 8 ->
      exists st' phase r,
        attempt a N m st = Ok st' /\
        true_divide m (2 ^ 8) = Ok phase /\
        (phase == sample_to_phase m 8)%Q /\
        extract_period phase N = Ok r /\
        1 <= r <= N) /\
  (forall (samples : list Z) (st : state),
      Forall (fun m => 0 <= m < 2 ^ 8) samples ->
      exists st' rest, search a N samples st = Ok (st', rest)).
Proof.
  split.
  - intros m st Hm. apply attempt_ok; assumption.
  - induction samples as [ | m samples IH]; intros st Hall.
    + exists st, []. cbn [search]. now destruct (FACTOR_FOUND st).
    + cbn [search]. destruct (FACTOR_FOUND st).
      * eexists. eexists. reflexivity.
      * inversion Hall as [ | m' samples' Hm Hrest]; subst.
        destruct (attempt_ok a N m st Ha HN Hm) as [st1 [phase [r [Hat _]]]].
        rewrite Hat. cbn [bind]. apply IH. exact Hrest.
Qed.

Lemma search_never_raises_witness :
  exists st' rest, search 7 15 [3; 255; 37] initial = Ok (st', rest).
Proof.
  refine (proj2 (search_never_raises 7 15 _ _) [3; 255; 37] initial _).
  - simpl. tauto.
  - lia.
  - change (2 ^ 8) with 256. repeat constructor; lia.
Defined.

(** [c_amod15] never looks at [N]: with a multiplier of the table and a
    modulus below 1 the gate is built and the circuit sampled, and the
    attempt then dies in [limit_denominator] with its [ValueError], for
    every sample of eight bits; the loop passes the exception on. *)
Theorem attempt_bad_modulus (a N m : Z) (st : state) (rest : list Z)
    (Ha : In a [2; 4; 7; 8; 11; 13]) (HN : N < 1)
    (Hm : 0 <= m < 2 ^ 8) :
  is_ok (c_amod15 a N) = true /\
  attempt a N m st
    = Raise (ValueError "max_denominator should be at least 1") /\
  (FACTOR_FOUND st = false ->
   search a N (m :: rest) st
     = Raise (ValueError "max_denominator should be at least 1")).
Proof.
  destruct (c_amod15_ok a N Ha) as [op Hop].
  destruct (true_divide_unit m 8 ltac:(lia) Hm) as [phase [Hph _]].
  assert (Hat : attempt a N m st
                = Raise (ValueError "max_denominator should be at least 1")).
  { unfold attempt. rewrite Hop. cbn [bind].
    rewrite (driver_phase_estimation a N m op Hop), Hph. cbn [bind].
    unfold extract_period, limit_denominator.
    destruct (Z.ltb_spec N 1); [reflexivity | lia]. }
  split; [rewrite Hop; reflexivity | ].
  split; [exact Hat | ].
  intros Hnf. cbn [search]. rewrite Hnf, Hat. reflexivity.
Qed.

Lemma attempt_bad_modulus_witness :
  attempt 8 0 64 initial
  = Raise (ValueError "max_denominator should be at least 1").
Proof.
  refine (proj1 (proj2 (attempt_bad_modulus 8 0 64 initial [] _ _ _))).
  - simpl. tauto.
  - lia.
  - change (2 ^ 8) with 256. lia.
Defined.

(** Bookkeeping of the loop: it uses the samples from the front, one per
    attempt; [ATTEMPT] grows by the number of samples used; it stops
    short of the end of the samples only with the flag up; and started
    with the flag up it does nothing. *)
Theorem search_counts_attempts (a N : Z) (samples rest : list Z)
    (st st' : state)
    (Hs : search a N samples st = Ok (st', rest)) :
  (exists used, samples = used ++ rest /\
                ATTEMPT st' = ATTEMPT st + Z.of_nat (List.length used)) /\
  (FACTOR_FOUND st' = false -> rest = []) /\
  (FACTOR_FOUND st = true -> st' = st /\ rest = samples).
Proof.
  destruct (FACTOR_FOUND st) eqn:Hf.
  - assert (Hstop : search a N samples st = Ok (st, samples)).
    { destruct samples; cbn [search]; now rewrite Hf. }
    rewrite Hstop in Hs. injection Hs as <- <-.
    split; [exists []; split; [reflexivity | simpl; lia] | ].
    split; [congruence | tauto].
  - destruct (search_effect a N samples st st' rest Hf Hs)
      as [used [gs [Hu [Hc [_ [_ [_ [Hrest _]]]]]]]].
    split; [exists used; tauto | ]. split; [exact Hrest | discriminate].
Qed.

Lemma search_counts_attempts_witness :
  exists used, [0; 1; 64; 5; 6] = used ++ [5; 6] /\
               3 = 0 + Z.of_nat (List.length used).
Proof.
  exact (proj1 (search_counts_attempts 8 15 [0; 1; 64; 5; 6] [5; 6] initial
                  (mkState true 3
                     [PrintAttempt 1; PrintPeriod 1; PrintAttempt 2;
                      PrintPeriod 1; PrintGuesses 15 1; PrintAttempt 3;
                      PrintPeriod 4; PrintGuesses 3 5; PrintFactor 3;
                      PrintFactor 5])
                  ltac:(vm_compute; reflexivity))).
Defined.

(** The flag and the output agree: a run started from the initial state
    ends with [FACTOR_FOUND] set exactly when a factor was printed; all
    printed factors come from the last attempt, so there are at most two,
    and every attempt before it printed none. *)
Theorem flag_iff_factor_printed (a N : Z) (samples rest : list Z) (st' : state)
    (Hs : search a N samples initial = Ok (st', rest)) :
  (FACTOR_FOUND st' = true <-> reported (stdout st') <> []) /\
  (List.length (reported (stdout st')) <= 2)%nat /\
  (FACTOR_FOUND st' = false -> reported (stdout st') = [] /\ rest = []).
Proof.
  destruct (search_effect a N samples initial st' rest eq_refl Hs)
    as [used [gs [_ [_ [Hrep [Hlen [Hflag [Hrest _]]]]]]]].
  cbn [initial stdout reported app] in Hrep. rewrite Hrep.
  split; [exact Hflag | ]. split; [exact Hlen | ].
  intros Hf. split; [ | exact (Hrest Hf)].
  destruct gs as [ | g gs]; [reflexivity | ].
  assert (FACTOR_FOUND st' = true) by (apply Hflag; discriminate). congruence.
Qed.

Lemma flag_iff_factor_printed_witness :
  (List.length (reported
     [PrintAttempt 1; PrintPeriod 1; PrintAttempt 2; PrintPeriod 2;
      PrintGuesses 1 3; PrintFactor 3]) <= 2)%nat.
Proof.
  exact (proj1 (proj2 (flag_iff_factor_printed 8 15 [0; 128; 64] [64]
                  (mkState true 2
                     [PrintAttempt 1; PrintPeriod 1; PrintAttempt 2;
                      PrintPeriod 2; PrintGuesses 1 3; PrintFactor 3])
                  ltac:(vm_compute; reflexivity)))).
Defined.

Lemma proper_divisor (N g : Z) :
  0 < N -> 0 <= g -> nontrivial_divisor N g = true ->
  1 < g < N /\ (g | N).
Proof.
  intros HN Hg Hnd.
  destruct (nontrivial_divisor_divides N g Hnd) as [Hg0 Hdiv].
  apply nontrivial_divisor_spec in Hnd. destruct Hnd as [H1 [H2 _]].
  pose proof (Z.divide_pos_le g N HN Hdiv). split; [lia | exact Hdiv].
Qed.

(** For a positive modulus every factor the loop prints is a proper
    factor, strictly between 1 and [N] and dividing [N]; the program as
    written, with [N = 15], can therefore print only 3 and 5. *)
Theorem reported_factors_proper (a N : Z) (samples rest : list Z) (st' : state)
    (g : Z)
    (HN : 0 < N)
    (Hs : search a N samples initial = Ok (st', rest))
    (Hg : In g (reported (stdout st'))) :
  1 < g < N /\ (g | N) /\ (N = 15 -> g = 3 \/ g = 5).
Proof.
  destruct (search_effect a N samples initial st' rest eq_refl Hs)
    as [used [gs [_ [_ [Hrep [_ [_ [_ Hall]]]]]]]].
  cbn [initial stdout reported app] in Hrep. rewrite Hrep in Hg.
  destruct (Hall g Hg) as [Hnd Hnn].
  destruct (proper_divisor N g HN Hnn Hnd) as [Hr Hdiv].
  split; [exact Hr | ]. split; [exact Hdiv | ].
  intros ->. destruct Hdiv as [k Hk].
  assert (Hc : g = 2 \/ g = 3 \/ g = 4 \/ g = 5 \/ g = 6 \/ g = 7 \/ g = 8
               \/ g = 9 \/ g = 10 \/ g = 11 \/ g = 12 \/ g = 13 \/ g = 14) by lia.
  repeat (destruct Hc as [-> | Hc]; [try tauto; exfalso; lia | ]).
  subst g. exfalso. lia.
Qed.

Lemma reported_factors_proper_witness :
  1 < 5 < 15 /\ (5 | 15).
Proof.
  destruct (reported_factors_proper 8 15 [192] []
              (mkState true 1
                 [PrintAttempt 1; PrintPeriod 4; PrintGuesses 3 5;
                  PrintFactor 3; PrintFactor 5])
              5 ltac:(lia) ltac:(vm_compute; reflexivity)
              ltac:(simpl; tauto)) as [H1 [H2 _]].
  split; assumption.
Defined.

(** *** The arithmetic behind the guesses *)

Lemma gcd_is_modulus (x N : Z) : 0 < N -> (Z.gcd x N = N <-> (N | x)).
Proof.
  intros HN. split.
  - intros H. rewrite <- H. apply Z.gcd_divide_l.
  - intros H. rewrite Z.gcd_comm. apply Z.divide_gcd_iff; [lia | exact H].
Qed.

Lemma gcd_nontrivial (x y N : Z) :
  0 < N -> (N | x * y) -> ~ (N | x) -> ~ (N | y) ->
  nontrivial_divisor N (Z.gcd x N) = true.
Proof.
  intros HN Hxy Hx Hy. apply nontrivial_divisor_spec.
  split; [ | split].
  - intros H1. apply Hy. apply (Z.gauss N x y Hxy).
    rewrite Z.gcd_comm. exact H1.
  - intros HgN. apply Hx. apply (gcd_is_modulus x N HN). exact HgN.
  - apply Z.mod_divide.
    + intros H0. apply Z.gcd_eq_0_r in H0. lia.
    + apply Z.gcd_divide_r.
Qed.

Lemma half_power_square (a r : Z) :
  0 <= r -> Z.even r = true -> a ^ (r / 2) * a ^ (r / 2) = a ^ r.
Proof.
  intros Hr He. rewrite <- Z.pow_add_r by (apply Z.div_pos; lia).
  f_equal. apply Zeven_bool_iff in He. apply Zeven_div2 in He.
  rewrite Z.div2_div in He. lia.
Qed.

(** The classical step as the docstring gives it (steps 5 to 7): when the
    period found is even, [a^r = 1] modulo [N], and [a^(r/2)] is neither 1
    nor -1 modulo [N], the attempt prints both [gcd (a^(r/2) - 1) N] and
    [gcd (a^(r/2) + 1) N], each a proper factor of [N], and sets the flag. *)
Theorem shor_postprocessing (a N r : Z) (phase : Q) (st : state)
    (HN : 0 < N)
    (Hphase : Qeq_bool phase 0 = false)
    (Hr : 0 <= r) (Heven : Z.even r = true)
    (Hord : (N | a ^ r - 1))
    (Hminus : ~ (N | a ^ (r / 2) - 1))
    (Hplus : ~ (N | a ^ (r / 2) + 1)) :
  let g0 := Z.gcd (a ^ (r / 2) - 1) N in
  let g1 := Z.gcd (a ^ (r / 2) + 1) N in
  exists st',
    report a N phase r st = Ok st' /\
    reported (stdout st') = reported (stdout st) ++ [g0; g1] /\
    FACTOR_FOUND st' = true /\
    (1 < g0 < N /\ (g0 | N)) /\ (1 < g1 < N /\ (g1 | N)).
Proof.
  intros g0 g1.
  assert (Hprod : (N | (a ^ (r / 2) - 1) * (a ^ (r / 2) + 1))).
  { replace ((a ^ (r / 2) - 1) * (a ^ (r / 2) + 1))
      with (a ^ (r / 2) * a ^ (r / 2) - 1) by ring.
    rewrite (half_power_square a r Hr Heven). exact Hord. }
  assert (Hprod' : (N | (a ^ (r / 2) + 1) * (a ^ (r / 2) - 1)))
    by (rewrite Z.mul_comm; exact Hprod).
  pose proof (gcd_nontrivial _ _ N HN Hprod Hminus Hplus) as H0.
  pose proof (gcd_nontrivial _ _ N HN Hprod' Hplus Hminus) as H1.
  fold g0 in H0. fold g1 in H1.
  eexists. split; [apply report_nonzero; exact Hphase | ].
  cbn [stdout FACTOR_FOUND]. unfold guesses. fold g0 g1.
  cbn [existsb filter]. rewrite H0, H1. cbn [map orb].
  split.
  - rewrite !reported_app. cbn [reported app]. reflexivity.
  - split; [apply orb_true_r | ].
    split; apply proper_divisor; try assumption; apply Z.gcd_nonneg.
Qed.

Lemma shor_postprocessing_witness :
  exists st', report 7 15 (1 # 4) 4 initial = Ok st' /\
              reported (stdout st') = [3; 5].
Proof.
  destruct (shor_postprocessing 7 15 4 (1 # 4) initial) as [st' [Hrep [Hout _]]].
  - lia.
  - reflexivity.
  - lia.
  - reflexivity.
  - exists 160. reflexivity.
  - intros [k Hk]. change (7 ^ (4 / 2) - 1) with 48 in Hk. lia.
  - intros [k Hk]. change (7 ^ (4 / 2) + 1) with 50 in Hk. lia.
  - exists st'. split; [exact Hrep | exact Hout].
Defined.

(** Steps 5 and 6 of the docstring are not tested for; they are caught by
    the triviality test instead: a guess is [N] itself exactly when [N]
    divides the number it was taken from, and such a guess is never
    printed.  So [a^(r/2) = -1] modulo [N] loses the second guess and
    [a^(r/2) = 1] the first. *)
Theorem trivial_guess_rejected (x N : Z) (st : state) (HN : 0 < N) :
  (Z.gcd x N = N <-> (N | x)) /\
  ((N | x) -> accepted N (Z.gcd x N) = Ok false /\
              check_guess N (Z.gcd x N) st = Ok st).
Proof.
  split; [apply gcd_is_modulus; exact HN | ].
  intros Hdiv. apply (gcd_is_modulus x N HN) in Hdiv.
  assert (Hnd : nontrivial_divisor N (Z.gcd x N) = false).
  { destruct (nontrivial_divisor N (Z.gcd x N)) eqn:E; [ | reflexivity].
    apply nontrivial_divisor_spec in E. tauto. }
  split.
  - rewrite accepted_gcd. now rewrite Hnd.
  - rewrite check_guess_gcd. now rewrite Hnd.
Qed.

Lemma trivial_guess_rejected_witness :
  Z.gcd (4 ^ (2 / 2) + 11) 15 = 15 /\
  accepted 15 (Z.gcd (4 ^ (2 / 2) + 11) 15) = Ok false.
Proof.
  destruct (trivial_guess_rejected (4 ^ (2 / 2) + 11) 15 initial ltac:(lia))
    as [Hiff Hrej].
  assert (Hd : (15 | 4 ^ (2 / 2) + 11)) by (exists 1; reflexivity).
  split; [apply Hiff; exact Hd | apply Hrej; exact Hd].
Defined.

Lemma gcd_two_odd (N : Z) : Z.odd N = true -> Z.gcd 2 N = 1.
Proof.
  intros Hodd.
  pose proof (Z.gcd_nonneg 2 N) as Hnn.
  pose proof (Z.gcd_divide_l 2 N) as Hl.
  pose proof (Z.gcd_divide_r 2 N) as Hr.
  assert (Hle : Z.gcd 2 N <= 2) by (apply Z.divide_pos_le; [lia | exact Hl]).
  assert (Hc : Z.gcd 2 N = 0 \/ Z.gcd 2 N = 1 \/ Z.gcd 2 N = 2) by lia.
  destruct Hc as [E | [E | E]]; [ | exact E | ].
  - apply Z.gcd_eq_0_l in E. discriminate E.
  - exfalso. rewrite E in Hr. destruct Hr as [k Hk].
    rewrite Hk, Z.odd_mul in Hodd. simpl in Hodd.
    now rewrite andb_false_r in Hodd.
Qed.

(** A period of 1 read off a phase that is not 0 (a sample close to 0 or
    to [2^precision]) is treated like any other: the guesses are [N] and
    [gcd 2 N], so for an odd modulus above 1 the attempt prints no factor
    and leaves the flag alone. *)
Theorem period_one_finds_nothing (a N : Z) (phase : Q) (st : state)
    (HN : 1 < N) (Hodd : Z.odd N = true)
    (Hphase : Qeq_bool phase 0 = false) :
  guesses a N 1 = [N; 1] /\
  exists st', report a N phase 1 st = Ok st' /\
              stdout st' = stdout st ++ [PrintPeriod 1; PrintGuesses N 1] /\
              FACTOR_FOUND st' = FACTOR_FOUND st /\
              ATTEMPT st' = ATTEMPT st.
Proof.
  assert (Hg : guesses a N 1 = [N; 1]).
  { unfold guesses. change (1 / 2) with 0. rewrite Z.pow_0_r.
    change (1 - 1) with 0. change (1 + 1) with 2.
    rewrite Z.gcd_0_l. rewrite (gcd_two_odd N Hodd).
    f_equal. apply Z.abs_eq. lia. }
  split; [exact Hg | ].
  eexists. split; [apply report_nonzero; exact Hphase | ].
  cbn [stdout FACTOR_FOUND ATTEMPT]. rewrite Hg.
  assert (Hg0 : Z.gcd (a ^ (1 / 2) - 1) N = N)
    by (unfold guesses in Hg; congruence).
  assert (Hg1 : Z.gcd (a ^ (1 / 2) + 1) N = 1)
    by (unfold guesses in Hg; congruence).
  rewrite Hg0, Hg1.
  assert (HndN : nontrivial_divisor N N = false).
  { destruct (nontrivial_divisor N N) eqn:E; [ | reflexivity].
    apply nontrivial_divisor_spec in E. tauto. }
  assert (Hnd1 : nontrivial_divisor N 1 = false).
  { destruct (nontrivial_divisor N 1) eqn:E; [ | reflexivity].
    apply nontrivial_divisor_spec in E. tauto. }
  cbn [existsb filter]. rewrite HndN, Hnd1. cbn [map orb].
  rewrite orb_false_r. repeat split.
Qed.

Lemma period_one_finds_nothing_witness :
  extract_period (sample_to_phase 1 8) 15 = Ok 1 /\
  guesses 8 15 1 = [15; 1].
Proof.
  split; [reflexivity | ].
  exact (proj1 (period_one_finds_nothing 8 15 (sample_to_phase 1 8) initial
                  ltac:(lia) eq_refl eq_refl)).
Defined.

Lemma attempt_zero_sample (a N : Z) (st : state) :
  In a units15 -> 1 <= N ->
  attempt a N 0 st
  = Ok (mkState (FACTOR_FOUND st) (ATTEMPT st + 1)
          (stdout st ++ [PrintAttempt (ATTEMPT st + 1); PrintPeriod 1])).
Proof.
  intros Ha HN. destruct (c_amod15_ok a N Ha) as [op Hop].
  assert (Hz : (0 == 0)%Q) by reflexivity.
  rewrite (attempt_unfold a N 0 1 op 0%Q st Hop eq_refl
             (extract_period_zero _ N Hz HN)).
  rewrite report_zero by reflexivity.
  unfold print. cbn [FACTOR_FOUND ATTEMPT stdout].
  now rewrite <- app_assoc.
Qed.

(** The loop has no bound of its own: as long as the simulator returns
    the sample 0 the search goes on, one attempt per sample, printing no
    factor and never setting the flag. *)
Theorem zero_samples_no_progress (a N : Z) (samples : list Z)
    (Ha : In a [2; 4; 7; 8; 11; 13]) (HN : 1 <= N)
    (Hzero : Forall (fun m => m = 0) samples) :
  forall st : state,
    FACTOR_FOUND st = false ->
    exists st',
      search a N samples st = Ok (st', []) /\
      FACTOR_FOUND st' = false /\
      ATTEMPT st' = ATTEMPT st + Z.of_nat (List.length samples) /\
      reported (stdout st') = reported (stdout st).
Proof.
  induction Hzero as [ | m samples Hm _ IH]; intros st Hnf.
  - exists st. cbn [search]. rewrite Hnf. repeat split; try assumption.
    simpl. lia.
  - subst m. cbn [search]. rewrite Hnf.
    rewrite (attempt_zero_sample a N st Ha HN). cbn [bind].
    destruct (IH (mkState (FACTOR_FOUND st) (ATTEMPT st + 1)
                    (stdout st ++ [PrintAttempt (ATTEMPT st + 1); PrintPeriod 1]))
                Hnf) as [st' [Hs [Hf [Hc Hr]]]].
    exists st'. split; [exact Hs | ]. split; [exact Hf | ].
    cbn [ATTEMPT stdout] in Hc, Hr. split.
    + rewrite Hc. cbn [List.length]. lia.
    + rewrite Hr, reported_app. simpl. apply app_nil_r.
Qed.

Lemma zero_samples_no_progress_witness :
  exists st', search 8 15 [0; 0; 0] initial = Ok (st', []) /\
              FACTOR_FOUND st' = false /\ ATTEMPT st' = 3.
Proof.
  destruct (zero_samples_no_progress 8 15 [0; 0; 0]) with (st := initial)
    as [st' [Hs [Hf [Hc _]]]].
  - simpl. tauto.
  - lia.
  - repeat constructor.
  - reflexivity.
  - exists st'. repeat split; assumption.
Defined.
